(** * CollegeMate backend: the social graph and the engagement ledger

    A shallow embedding of the request handlers of [backend/server.js]
    (follow, unfollow, profile, like, comment, post listing) together with
    the properties the specification states about them.

    Modelling conventions.
    - The two MongoDB collections are finite maps from document id to
      document: [users] and [posts].
    - Document ids are strings.  An [ObjectId] is represented by the
      string it prints as, which is the form ids are stored in.  The
      handlers of the first part take request ids that are in that form
      already, so that the source's [id.toString() === userId] is equality
      of strings and [includes] is list membership.  The part "Requests as
      they arrive" describes the same handlers on arbitrary request
      strings, with the cast to [ObjectId] made explicit, and the two are
      related by the lemmas named [..._stored_form].
    - A request field is an [option string]: [None] is JavaScript's
      [undefined], and [!field] holds for [None] and for the empty string.
    - [likes] and [shares] are JavaScript numbers that only ever hold
      integers here; they are integers of [Z], and [Math.max] is [Z.max].
    - Dates are milliseconds since the epoch, in [Z]; [new Date()] is an
      explicit argument [now] of the handler that calls it.
    - [doc.save()] writes the modified paths of the document back to the
      stored document with the same id.
    - A handler is a function from the store and the request to a response
      and the next store; statements are executed in the source's order. *)

From stdpp Require Import gmap strings list fin_maps sorting.
From Stdlib Require Import ZArith.

#[local] Set Warnings "-clear-no-such-hyp".

Local Open Scope string_scope.
Local Open Scope Z_scope.
Local Open Scope list_scope.

(** ** Documents *)

(** [userSchema]. *)
Record User : Type := mkUser {
  firstName : string;
  lastName : string;
  email : string;
  password : string;
  profileImage : string;
  bio : string;
  location : string;
  website : string;
  followers : list string;
  following : list string;
  userCreatedAt : Z
}.

(** One element of [postSchema.comments]. *)
Record Comment : Type := mkComment {
  commentUserId : string;
  commentText : string;
  commentCreatedAt : Z
}.

(** [postSchema]. *)
Record Post : Type := mkPost {
  userId : string;
  text : string;
  image : string;
  video : string;
  likes : Z;
  likedBy : list string;
  shares : Z;
  comments : list Comment;
  createdAt : Z
}.

(** The database: both collections, keyed by [_id]. *)
Record Store : Type := mkStore {
  users : gmap string User;
  posts : gmap string Post
}.

(** ** Responses *)

(** [res.status(code).json(...)]: a success carries the handler's payload,
    a failure carries the [message] of the error body. *)
Inductive response (A : Type) : Type :=
| Success (code : nat) (data : A)
| Failure (code : nat) (message : string).

Arguments Success {A} code data.
Arguments Failure {A} code message.

Definition status {A : Type} (r : response A) : nat :=
  match r with
  | Success code _ => code
  | Failure code _ => code
  end.

(** The specification's names for the failure statuses the handlers send. *)
Inductive ErrorKind : Type :=
| InvalidArgument
| NotFound
| StorageFailure.

Definition error_kind {A : Type} (r : response A) : option ErrorKind :=
  match r with
  | Success _ _ => None
  | Failure 400 _ => Some InvalidArgument
  | Failure 404 _ => Some NotFound
  | Failure _ _ => Some StorageFailure
  end.

(** ** Request fields *)

(** The value of a request field when it is truthy: [!field] is the case
    [truthy field = None]. *)
Definition truthy (field : option string) : option string :=
  match field with
  | Some s => if decide (s = "") then None else Some s
  | None => None
  end.

(** ** Field updates of stored documents *)

Definition with_following (v : list string) (u : User) : User :=
  mkUser (firstName u) (lastName u) (email u) (password u) (profileImage u)
         (bio u) (location u) (website u) (followers u) v (userCreatedAt u).

Definition with_followers (v : list string) (u : User) : User :=
  mkUser (firstName u) (lastName u) (email u) (password u) (profileImage u)
         (bio u) (location u) (website u) v (following u) (userCreatedAt u).

Definition with_likes (n : Z) (l : list string) (p : Post) : Post :=
  mkPost (userId p) (text p) (image p) (video p) n l (shares p)
         (comments p) (createdAt p).

Definition with_comments (cs : list Comment) (p : Post) : Post :=
  mkPost (userId p) (text p) (image p) (video p) (likes p) (likedBy p)
         (shares p) cs (createdAt p).

(** [me.save()] after [me.following] changed: the path [following] of the
    stored user [id] is written. *)
Definition save_following (id : string) (v : list string) (st : Store) : Store :=
  mkStore (alter (with_following v) id (users st)) (posts st).

(** [them.save()] after [them.followers] changed. *)
Definition save_followers (id : string) (v : list string) (st : Store) : Store :=
  mkStore (alter (with_followers v) id (users st)) (posts st).

(** [post.save()]. *)
Definition save_post (id : string) (p : Post) (st : Store) : Store :=
  mkStore (users st) (<[id := p]> (posts st)).

(** ** Relationship graph *)

(** [POST /user/follow], for request ids in stored form; [follow_request]
    is the handler on arbitrary request strings. *)
Definition follow (st : Store) (userId targetId : option string)
  : response string * Store :=
  match truthy userId, truthy targetId with
  | Some userId, Some targetId =>
      if decide (userId = targetId)
      then (Failure 400 "You cannot follow yourself.", st)
      else
        match users st !! userId, users st !! targetId with
        | Some me, Some them =>
            let st1 :=
              if decide (targetId ∈ following me) then st
              else save_following userId (following me ++ [targetId]) st in
            let st2 :=
              if decide (userId ∈ followers them) then st1
              else save_followers targetId (followers them ++ [userId]) st1 in
            (Success 200 "Followed successfully.", st2)
        | _, _ => (Failure 404 "User not found.", st)
        end
  | _, _ => (Failure 400 "userId and targetId are required.", st)
  end.

(** [POST /user/unfollow], for request ids in stored form;
    [unfollow_request] is the handler on arbitrary request strings. *)
Definition unfollow (st : Store) (userId targetId : option string)
  : response string * Store :=
  match truthy userId, truthy targetId with
  | Some userId, Some targetId =>
      match users st !! userId, users st !! targetId with
      | Some me, Some them =>
          let st1 :=
            save_following userId
              (filter (λ id, id ≠ targetId) (following me)) st in
          let st2 :=
            save_followers targetId
              (filter (λ id, id ≠ userId) (followers them)) st1 in
          (Success 200 "Unfollowed successfully.", st2)
      | _, _ => (Failure 404 "User not found.", st)
      end
  | _, _ => (Failure 400 "userId and targetId are required.", st)
  end.

(** The relationship sets of a stored user, empty for an unknown id. *)
Definition following_of (st : Store) (id : string) : list string :=
  match users st !! id with
  | Some u => following u
  | None => []
  end.

Definition followers_of (st : Store) (id : string) : list string :=
  match users st !! id with
  | Some u => followers u
  | None => []
  end.

(** ** Display joins *)

(** What [populate(path, "firstName lastName profileImage")] puts in the
    place of a user id. *)
Record UserSummary : Type := mkUserSummary {
  summaryId : string;
  summaryFirstName : string;
  summaryLastName : string;
  summaryProfileImage : string
}.

(** The summary of the user a reference points to; [None] when no such
    user is stored. *)
Definition summary (st : Store) (id : string) : option UserSummary :=
  (λ u, mkUserSummary id (firstName u) (lastName u) (profileImage u))
    <$> users st !! id.

(** Populating an array of references: a reference to a user that is not
    stored yields no element. *)
Definition populate (st : Store) (ids : list string) : list UserSummary :=
  omap (summary st) ids.

(** ** Profile view composer *)

(** The [user] object of the profile response: the stored fields without
    the password, the populated relationship arrays, and the three
    computed fields. *)
Record ProfileView : Type := mkProfileView {
  pvId : string;
  pvFirstName : string;
  pvLastName : string;
  pvEmail : string;
  pvProfileImage : string;
  pvBio : string;
  pvLocation : string;
  pvWebsite : string;
  pvFollowers : list UserSummary;
  pvFollowing : list UserSummary;
  pvCreatedAt : Z;
  followersCount : nat;
  followingCount : nat;
  isFollowing : bool
}.

(** [GET /profile/:id], with the optional query parameter [myId], for an
    [id] in stored form; [myId] is compared as the string it is. *)
Definition get_profile (st : Store) (id : string) (myId : option string)
  : response ProfileView :=
  match users st !! id with
  | None => Failure 404 "User not found."
  | Some user =>
      let user_followers := populate st (followers user) in
      let user_following := populate st (following user) in
      let is_following :=
        match truthy myId with
        | Some myId =>
            if decide (myId ≠ id)
            then existsb (λ f, bool_decide (summaryId f = myId)) user_followers
            else false
        | None => false
        end in
      Success 200
        (mkProfileView id (firstName user) (lastName user) (email user)
           (profileImage user) (bio user) (location user) (website user)
           user_followers user_following (userCreatedAt user)
           (length user_followers) (length user_following) is_following)
  end.

(** ** Engagement ledger *)

(** The body of the like handler between [findById] and [save], for a
    user id in stored form. *)
Definition toggle (userId : string) (post : Post) : Post :=
  let alreadyLiked := existsb (λ id, bool_decide (id = userId)) (likedBy post) in
  if alreadyLiked
  then with_likes (Z.max (likes post - 1) 0)
                  (filter (λ id, id ≠ userId) (likedBy post)) post
  else with_likes (likes post + 1) (likedBy post ++ [userId]) post.

(** The body of the like response. *)
Record LikeReply : Type := mkLikeReply {
  replyMessage : string;
  replyLikes : Z;
  replyLikedBy : list string
}.

(** [POST /post/like], for request ids in stored form; [like_request] is
    the handler on arbitrary request strings. *)
Definition toggle_like (st : Store) (postId userId : option string)
  : response LikeReply * Store :=
  match truthy postId, truthy userId with
  | Some postId, Some userId =>
      match posts st !! postId with
      | None => (Failure 404 "Post not found.", st)
      | Some post =>
          let post' := toggle userId post in
          (Success 200 (mkLikeReply "Post like updated." (likes post') (likedBy post')),
           save_post postId post' st)
      end
  | _, _ => (Failure 400 "postId and userId are required.", st)
  end.

(** A like request: the [postId] and [userId] fields of its body. *)
Definition LikeRequest : Type := option string * option string.

(** The number of distinct users in [likedBy]. *)
Definition liked_by_cardinal (p : Post) : Z :=
  Z.of_nat (size (list_to_set (likedBy p) : gset string)).

(** The like state of a post is consistent when its counter is the
    cardinality of its [likedBy] set. *)
Definition like_consistent (p : Post) : Prop :=
  likes p = liked_by_cardinal p.

(** A comment of the comment response, its author populated. *)
Record CommentView : Type := mkCommentView {
  viewUser : option UserSummary;
  viewText : string;
  viewCreatedAt : Z
}.

Definition comment_view (st : Store) (c : Comment) : CommentView :=
  mkCommentView (summary st (commentUserId c)) (commentText c) (commentCreatedAt c).

(** The comment sequence of a stored post, empty for an unknown id. *)
Definition comments_of (st : Store) (postId : string) : list Comment :=
  match posts st !! postId with
  | Some p => comments p
  | None => []
  end.

(** ** Feed assembler *)

(** One element of the array [GET /posts] answers with. *)
Record FeedEntry : Type := mkFeedEntry {
  entryId : string;
  entryUserId : string;
  entryUserName : string;
  entryUserAvatar : string;
  entryText : string;
  entryImage : string;
  entryVideo : string;
  entryLikes : Z;
  entryLikedBy : list string;
  entryShares : Z;
  entryComments : nat;
  entryCreatedAt : Z
}.

(** The callback of [posts.map]; a post whose author is not stored has
    [userDoc = null], and reading [userDoc._id] throws. *)
Definition feed_entry (st : Store) (doc : string * Post) : option FeedEntry :=
  userDoc ← summary st (userId doc.2);
  Some (mkFeedEntry doc.1 (summaryId userDoc)
          (summaryFirstName userDoc +:+ " " +:+ summaryLastName userDoc)
          (summaryProfileImage userDoc)
          (text doc.2) (image doc.2) (video doc.2) (likes doc.2)
          (likedBy doc.2) (shares doc.2) (length (comments doc.2))
          (createdAt doc.2)).

(** The documents [Post.find(filter)] selects: every post when the query
    has no truthy [userId], the posts of that author otherwise, for an
    author id in stored form ([posts_request] casts the request string). *)
Definition selected (userId_q : option string) (doc : string * Post) : bool :=
  match truthy userId_q with
  | Some uid => bool_decide (userId doc.2 = uid)
  | None => true
  end.

Definition find_posts (st : Store) (userId_q : option string)
  : list (string * Post) :=
  filter (λ doc, selected userId_q doc) (map_to_list (posts st)).

(** [sort({ createdAt: -1 })]: the only key handed to the database is the
    creation time, descending. *)
Definition newer_or_equal (a b : string * Post) : Prop :=
  createdAt b.2 ≤ createdAt a.2.

(** What the database owes for that sort: the selected documents, each
    once, no document before a newer one.  The source names no second key,
    so documents created at the same time may come in either order. *)
Definition sorted_newest_first (found docs : list (string * Post)) : Prop :=
  docs ≡ₚ found ∧ Sorted newer_or_equal docs.

(** The rest of the handler, from the sorted documents to the response;
    the exception of [feed_entry] is caught and answered with 500. *)
Definition render_posts (st : Store) (docs : list (string * Post))
  : response (list FeedEntry) :=
  match mapM (feed_entry st) docs with
  | Some mappedPosts => Success 200 mappedPosts
  | None => Failure 500 "Server error."
  end.

(** [GET /posts]: the responses the handler can give on a store, for an
    author id in stored form. *)
Definition get_posts (st : Store) (userId_q : option string)
    (r : response (list FeedEntry)) : Prop :=
  ∃ docs, sorted_newest_first (find_posts st userId_q) docs
          ∧ r = render_posts st docs.

Global Instance newer_or_equal_dec : RelDecision newer_or_equal.
Proof. intros a b. unfold newer_or_equal. apply _. Defined.

(** One run of [GET /posts], with a database that sorts by stable merging. *)
Definition get_posts_run (st : Store) (userId_q : option string)
  : response (list FeedEntry) :=
  render_posts st (merge_sort newer_or_equal (find_posts st userId_q)).

(** The feed is ordered when no entry comes before a newer one. *)
Definition feed_descending (es : list FeedEntry) : Prop :=
  Sorted (λ a b, entryCreatedAt b ≤ entryCreatedAt a) es.

(** ** Referential integrity of the user collection *)

(** No user has the empty id, and every id in a relationship array is the
    id of a stored user.  The handlers create no reference to an unknown
    user and never delete a user. *)
Definition references_resolve (st : Store) : Prop :=
  users st !! "" = None
  ∧ ∀ id u x, users st !! id = Some u →
              x ∈ followers u ∨ x ∈ following u → is_Some (users st !! x).

(** ** A small store for examples

    Two users; three posts of the first user, two of them created at the
    same time, and one post of the second user. *)
Definition example_users : gmap string User :=
  <["a1" := mkUser "Ann" "Lee" "ann@example.org" "hash" "ann.png" "" "" "" [] [] 1]>
    (<["b2" := mkUser "Bob" "Ray" "bob@example.org" "hash" "" "" "" "" [] [] 2]> ∅).

Definition example_posts : gmap string Post :=
  <["p1" := mkPost "a1" "one" "" "" 0 [] 0 [] 10]>
    (<["p2" := mkPost "a1" "two" "" "" 0 [] 0 [] 10]>
       (<["p3" := mkPost "b2" "three" "" "" 0 [] 0 [] 30]>
          (<["p4" := mkPost "a1" "four" "" "" 0 [] 0 [] 40]> ∅))).

Definition example_store : Store := mkStore example_users example_posts.

(** ** Equality of documents *)

Global Instance Comment_eq_dec : EqDecision Comment.
Proof. solve_decision. Defined.

Global Instance Post_eq_dec : EqDecision Post.
Proof. solve_decision. Defined.

(** ** Accounts *)

(** [User.findOne({ email })]: a stored user with that email, with its id.
    The schema declares [email] unique, so at most one user matches; were
    there several, the database would pick one of them. *)
Definition find_user_by_email (st : Store) (e : string) : option (string * User) :=
  head (filter (λ doc, email doc.2 = e) (map_to_list (users st))).

(** [POST /signup].  [newId] is the [_id] the new document gets, [now] the
    value of [Date.now] for [createdAt], [hashedPassword] the result of
    [bcrypt.hash(password, 10)], and [file] the stored name of the uploaded
    profile image, when there is one.  The response carries the message and
    the new [userId]. *)
Definition signup (st : Store) (newId : string) (now : Z) (hashedPassword : string)
    (firstName_f lastName_f email_f password_f : option string)
    (file : option string)
  : response (string * string) * Store :=
  match truthy firstName_f, truthy lastName_f, truthy email_f, truthy password_f with
  | Some first, Some last, Some e, Some _ =>
      match find_user_by_email st e with
      | Some existingUser =>
          (Failure 400 "User with that email already exists.", st)
      | None =>
          let newUser :=
            mkUser first last e hashedPassword (default "" file)
                   "" "" "" [] [] now in
          (Success 201 ("Sign up successful.", newId),
           mkStore (<[newId := newUser]> (users st)) (posts st))
      end
  | _, _, _, _ => (Failure 400 "All fields are required.", st)
  end.

(** [POST /login]; [compare] is [bcrypt.compare]. *)
Definition login (compare : string → string → bool) (st : Store)
    (email_f password_f : option string)
  : response (string * string) :=
  match truthy email_f, truthy password_f with
  | Some e, Some pwd =>
      match find_user_by_email st e with
      | None => Failure 400 "Invalid credentials."
      | Some (id, user) =>
          if compare pwd (password user)
          then Success 200 ("Login successful.", id)
          else Failure 400 "Invalid credentials."
      end
  | _, _ => Failure 400 "Email and password are required."
  end.

(** No two stored users have the same email. *)
Definition emails_unique (st : Store) : Prop :=
  ∀ i j u v, users st !! i = Some u → users st !! j = Some v →
             email u = email v → i = j.

(** ** Relationship lists *)

(** [GET /users/:userId/followers]. *)
Definition get_followers (st : Store) (userId : string)
  : response (list UserSummary) :=
  match users st !! userId with
  | None => Failure 404 "User not found."
  | Some user => Success 200 (populate st (followers user))
  end.

(** [GET /users/:userId/following]. *)
Definition get_following (st : Store) (userId : string)
  : response (list UserSummary) :=
  match users st !! userId with
  | None => Failure 404 "User not found."
  | Some user => Success 200 (populate st (following user))
  end.

(** A request to the relationship graph, and the store after a sequence
    of them, served in order. *)
Inductive GraphRequest : Type :=
| FollowRequest (userId targetId : option string)
| UnfollowRequest (userId targetId : option string).

Definition graph_step (st : Store) (req : GraphRequest) : Store :=
  match req with
  | FollowRequest a b => (follow st a b).2
  | UnfollowRequest a b => (unfollow st a b).2
  end.

Definition graph_run (st : Store) (reqs : list GraphRequest) : Store :=
  foldl graph_step st reqs.

(** Both sides of every edge agree. *)
Definition graph_symmetric (st : Store) : Prop :=
  ∀ a b, b ∈ following_of st a ↔ a ∈ followers_of st b.

(** No user is in its own relationship arrays. *)
Definition no_self_follow (st : Store) : Prop :=
  ∀ a, (a ∉ following_of st a) ∧ (a ∉ followers_of st a).

(** No relationship array lists an id twice. *)
Definition relations_duplicate_free (st : Store) : Prop :=
  ∀ a, NoDup (following_of st a) ∧ NoDup (followers_of st a).

(** ** Posts: creation, detail view, shares *)


(** The [post] object of the detail response: the stored post with the
    authors of its comments populated. *)
Record PostView : Type := mkPostView {
  shownId : string;
  shownUserId : string;
  shownText : string;
  shownImage : string;
  shownVideo : string;
  shownLikes : Z;
  shownLikedBy : list string;
  shownShares : Z;
  shownComments : list CommentView;
  shownCreatedAt : Z
}.

(** [GET /post/:id]. *)
Definition get_post (st : Store) (id : string) : response PostView :=
  match posts st !! id with
  | None => Failure 404 "Post not found."
  | Some post =>
      Success 200
        (mkPostView id (userId post) (text post) (image post) (video post)
           (likes post) (likedBy post) (shares post)
           (comment_view st <$> comments post) (createdAt post))
  end.

Definition with_shares (n : Z) (p : Post) : Post :=
  mkPost (userId p) (text p) (image p) (video p) (likes p) (likedBy p) n
         (comments p) (createdAt p).

(** [POST /post/share]; the response carries the message and [shares]. *)
Definition share_post (st : Store) (postId userId : option string)
  : response (string * Z) * Store :=
  match truthy postId, truthy userId with
  | Some postId, Some userId =>
      match posts st !! postId with
      | None => (Failure 404 "Post not found.", st)
      | Some post =>
          let post' := with_shares (shares post + 1) post in
          (Success 200 ("Post shared successfully.", shares post'),
           save_post postId post' st)
      end
  | _, _ => (Failure 400 "postId and userId are required.", st)
  end.

(** The store after the same share request was served [n] times. *)
Definition share_times (n : nat) (st : Store) (postId userId : option string)
  : Store :=
  Nat.iter n (λ s, (share_post s postId userId).2) st.

(** * Requests as they arrive: ids that are cast

    The handlers above take ids in the form the database stores them in.
    A request carries strings.  [findById], [find] and [push] cast such a
    string to an [ObjectId] and fail when it is not one, whereas [===],
    [includes] and the callbacks of [some] and [filter] compare the string
    itself with the stored form.  The handlers below make that difference;
    [cast] gives the stored form of a request string, when it has one. *)

(** The lower-case form of a hexadecimal digit. *)
Definition hex_lower (c : Ascii.ascii) : option Ascii.ascii :=
  let n := Ascii.nat_of_ascii c in
  if ((48 <=? n) && (n <=? 57))%nat then Some c
  else if ((97 <=? n) && (n <=? 102))%nat then Some c
  else if ((65 <=? n) && (n <=? 70))%nat then Some (Ascii.ascii_of_nat (n + 32))
  else None.

(** The cast of a string of 24 hexadecimal digits: an [ObjectId] prints in
    lower case, so that is the stored form.  Every other string is
    refused here; a driver that accepts more strings is another [cast],
    and the handlers and their properties below are stated for every
    [cast]. *)
Definition object_id (s : string) : option string :=
  if decide (String.length s = 24%nat)
  then String.string_of_list_ascii
         <$> mapM hex_lower (String.list_ascii_of_string s)
  else None.

(** [POST /user/follow] on request strings. *)
Definition follow_request (cast : string → option string) (st : Store)
    (userId targetId : option string) : response string * Store :=
  match truthy userId, truthy targetId with
  | Some userId, Some targetId =>
      if decide (userId = targetId)
      then (Failure 400 "You cannot follow yourself.", st)
      else
        match cast userId with
        | None => (Failure 500 "Server error.", st)
        | Some myKey =>
            match cast targetId with
            | None => (Failure 500 "Server error.", st)
            | Some theirKey =>
                match users st !! myKey, users st !! theirKey with
                | Some me, Some them =>
                    let st1 :=
                      if decide (targetId ∈ following me) then st
                      else save_following myKey (following me ++ [theirKey]) st in
                    let st2 :=
                      if decide (userId ∈ followers them) then st1
                      else save_followers theirKey (followers them ++ [myKey]) st1 in
                    (Success 200 "Followed successfully.", st2)
                | _, _ => (Failure 404 "User not found.", st)
                end
            end
        end
  | _, _ => (Failure 400 "userId and targetId are required.", st)
  end.

(** [POST /user/unfollow] on request strings.  When both ids are cast to
    the id of one user, [me] and [them] are two copies of one document: if
    the first save has replaced [following], the second save, replacing
    [followers], carries a version that is no longer the stored one and is
    refused, which the handler answers with 500. *)
Definition unfollow_request (cast : string → option string) (st : Store)
    (userId targetId : option string) : response string * Store :=
  match truthy userId, truthy targetId with
  | Some userId, Some targetId =>
      match cast userId with
      | None => (Failure 500 "Server error.", st)
      | Some myKey =>
          match cast targetId with
          | None => (Failure 500 "Server error.", st)
          | Some theirKey =>
              match users st !! myKey, users st !! theirKey with
              | Some me, Some them =>
                  let following' := filter (λ id, id ≠ targetId) (following me) in
                  let st1 := save_following myKey following' st in
                  let followers' := filter (λ id, id ≠ userId) (followers them) in
                  if decide (myKey = theirKey
                             ∧ following' ≠ following me
                             ∧ followers' ≠ followers them)
                  then (Failure 500 "Server error.", st1)
                  else (Success 200 "Unfollowed successfully.",
                        save_followers theirKey followers' st1)
              | _, _ => (Failure 404 "User not found.", st)
              end
          end
      end
  | _, _ => (Failure 400 "userId and targetId are required.", st)
  end.

(** The store after a sequence of follow and unfollow requests on request
    strings. *)
Definition graph_request_step (cast : string → option string) (st : Store)
    (req : GraphRequest) : Store :=
  match req with
  | FollowRequest a b => (follow_request cast st a b).2
  | UnfollowRequest a b => (unfollow_request cast st a b).2
  end.

Definition graph_request_run (cast : string → option string) (st : Store)
    (reqs : list GraphRequest) : Store :=
  foldl (graph_request_step cast) st reqs.

(** A field that is absent, or a string in its stored form. *)
Definition stored_form (cast : string → option string) (field : option string)
  : Prop :=
  ∀ s, field = Some s → cast s = Some s.

Definition stored_form_request (cast : string → option string)
    (req : GraphRequest) : Prop :=
  match req with
  | FollowRequest a b => stored_form cast a ∧ stored_form cast b
  | UnfollowRequest a b => stored_form cast a ∧ stored_form cast b
  end.

(** [POST /post/like] on request strings: the membership test and the
    filter compare the request string, [push] stores its cast. *)
Definition like_request (cast : string → option string) (st : Store)
    (postId userId : option string) : response LikeReply * Store :=
  match truthy postId, truthy userId with
  | Some postId, Some userId =>
      match cast postId with
      | None => (Failure 500 "Server error.", st)
      | Some postKey =>
          match posts st !! postKey with
          | None => (Failure 404 "Post not found.", st)
          | Some post =>
              let alreadyLiked :=
                existsb (λ id, bool_decide (id = userId)) (likedBy post) in
              if alreadyLiked
              then
                let post' :=
                  with_likes (Z.max (likes post - 1) 0)
                             (filter (λ id, id ≠ userId) (likedBy post)) post in
                (Success 200 (mkLikeReply "Post like updated."
                                (likes post') (likedBy post')),
                 save_post postKey post' st)
              else
                match cast userId with
                | None => (Failure 500 "Server error.", st)
                | Some userKey =>
                    let post' :=
                      with_likes (likes post + 1) (likedBy post ++ [userKey]) post in
                    (Success 200 (mkLikeReply "Post like updated."
                                    (likes post') (likedBy post')),
                     save_post postKey post' st)
                end
          end
      end
  | _, _ => (Failure 400 "postId and userId are required.", st)
  end.

(** The store after a sequence of like requests on request strings. *)
Definition like_request_all (cast : string → option string) (st : Store)
    (reqs : list LikeRequest) : Store :=
  foldl (λ s req, (like_request cast s req.1 req.2).2) st reqs.

(** [POST /post/comment] on request strings: the author of the stored
    comment is the cast of [userId]. *)
Definition comment_request (cast : string → option string) (st : Store)
    (now : Z) (postId userId commentText : option string)
  : response (string * list CommentView) * Store :=
  match truthy postId, truthy userId, truthy commentText with
  | Some postId, Some userId, Some commentText =>
      match cast postId with
      | None => (Failure 500 "Server error.", st)
      | Some postKey =>
          match posts st !! postKey with
          | None => (Failure 404 "Post not found.", st)
          | Some post =>
              match cast userId with
              | None => (Failure 500 "Server error.", st)
              | Some userKey =>
                  let comment := mkComment userKey commentText now in
                  let post' := with_comments (comments post ++ [comment]) post in
                  let st' := save_post postKey post' st in
                  (Success 200 ("Comment added.",
                                comment_view st' <$> comments post'), st')
              end
          end
      end
  | _, _, _ =>
      (Failure 400 "postId, userId, and commentText are required.", st)
  end.

(** The store after a sequence of comment requests on one post. *)
Definition comment_request_all (cast : string → option string) (st : Store)
    (postId : string) (reqs : list (Z * string * string)) : Store :=
  foldl (λ s req,
           (comment_request cast s req.1.1 (Some postId) (Some req.1.2)
              (Some req.2)).2)
        st reqs.

(** The documents [Post.find({ userId })] selects once the filter is cast. *)
Definition posts_of (st : Store) (authorKey : string) : list (string * Post) :=
  filter (λ doc, userId doc.2 = authorKey) (map_to_list (posts st)).

(** [GET /posts] on a request string: without a truthy [userId] every
    post is listed; a [userId] that cannot be cast makes [find] fail. *)
Definition posts_request (cast : string → option string) (st : Store)
    (userId_q : option string) (r : response (list FeedEntry)) : Prop :=
  match truthy userId_q with
  | None => get_posts st None r
  | Some userId =>
      match cast userId with
      | None => r = Failure 500 "Server error."
      | Some authorKey =>
          ∃ docs, sorted_newest_first (posts_of st authorKey) docs
                  ∧ r = render_posts st docs
      end
  end.

(** One run of [GET /posts] on a request string, with a database that
    sorts by stable merging. *)
Definition posts_request_run (cast : string → option string) (st : Store)
    (userId_q : option string) : response (list FeedEntry) :=
  match truthy userId_q with
  | None => get_posts_run st None
  | Some userId =>
      match cast userId with
      | None => Failure 500 "Server error."
      | Some authorKey =>
          render_posts st (merge_sort newer_or_equal (posts_of st authorKey))
      end
  end.

(** ** A store with ids of the database's form *)

Definition ann_id : string := "aaaaaaaaaaaaaaaaaaaaaaa1".
Definition bob_id : string := "bbbbbbbbbbbbbbbbbbbbbbb2".
Definition cyd_id : string := "ccccccccccccccccccccccc3".
Definition post1_id : string := "dddddddddddddddddddddd01".
Definition post2_id : string := "dddddddddddddddddddddd02".

Definition hex_users : gmap string User :=
  <[ann_id := mkUser "Ann" "Lee" "ann@example.org" "hash" "ann.png" "" "" "" [] [] 1]>
    (<[bob_id := mkUser "Bob" "Ray" "bob@example.org" "hash" "" "" "" "" [] [] 2]> ∅).

Definition hex_posts : gmap string Post :=
  <[post1_id := mkPost ann_id "one" "" "" 0 [] 0 [] 10]>
    (<[post2_id := mkPost ann_id "two" "" "" 0 [] 0 [] 10]> ∅).

Definition hex_store : Store := mkStore hex_users hex_posts.

(** * Properties *)

(** ** Request fields and stored fields *)

Lemma truthy_Some (s : string) : s ≠ "" → truthy (Some s) = Some s.
Proof. intros Hs. unfold truthy. by rewrite decide_False. Qed.

Lemma truthy_empty : truthy (Some "") = None.
Proof. reflexivity. Qed.

Lemma truthy_inv (field : option string) (s : string) :
  truthy field = Some s → field = Some s ∧ s ≠ "".
Proof.
  destruct field as [x|]; simpl; [|done].
  case_decide; [done|]. by intros [= ->].
Qed.





Lemma filter_absent (x : string) (l : list string) :
  x ∉ l → filter (λ id, id ≠ x) l = l.
Proof.
  induction l as [|y l IH]; [done|].
  rewrite not_elem_of_cons. intros [Hxy Hl].
  rewrite filter_cons_True by congruence. by rewrite IH.
Qed.

Lemma following_of_save_following (st : Store) (id : string) (v : list string) :
  is_Some (users st !! id) → following_of (save_following id v st) id = v.
Proof.
  intros [u Hu]. unfold following_of, save_following. simpl.
  by rewrite lookup_alter_eq, Hu.
Qed.

Lemma following_of_save_followers (st : Store) (id id' : string) (v : list string) :
  following_of (save_followers id v st) id' = following_of st id'.
Proof.
  unfold following_of, save_followers. simpl.
  destruct (decide (id = id')) as [->|Hne].
  - rewrite lookup_alter_eq. by destruct (users st !! id').
  - by rewrite lookup_alter_ne.
Qed.

Lemma followers_of_save_followers (st : Store) (id : string) (v : list string) :
  is_Some (users st !! id) → followers_of (save_followers id v st) id = v.
Proof.
  intros [u Hu]. unfold followers_of, save_followers. simpl.
  by rewrite lookup_alter_eq, Hu.
Qed.

Lemma followers_of_save_following (st : Store) (id id' : string) (v : list string) :
  followers_of (save_following id v st) id' = followers_of st id'.
Proof.
  unfold followers_of, save_following. simpl.
  destruct (decide (id = id')) as [->|Hne].
  - rewrite lookup_alter_eq. by destruct (users st !! id').
  - by rewrite lookup_alter_ne.
Qed.

Lemma known_save_following (st : Store) (id id' : string) (v : list string) :
  is_Some (users (save_following id v st) !! id') ↔ is_Some (users st !! id').
Proof.
  unfold save_following. simpl. destruct (decide (id = id')) as [->|Hne].
  - rewrite lookup_alter_eq. by rewrite fmap_is_Some.
  - by rewrite lookup_alter_ne.
Qed.

Lemma known_save_followers (st : Store) (id id' : string) (v : list string) :
  is_Some (users (save_followers id v st) !! id') ↔ is_Some (users st !! id').
Proof.
  unfold save_followers. simpl. destruct (decide (id = id')) as [->|Hne].
  - rewrite lookup_alter_eq. by rewrite fmap_is_Some.
  - by rewrite lookup_alter_ne.
Qed.

(** ** Relationship graph *)

(** A follow request is answered with success only for two distinct,
    non-empty ids of stored users. *)
Lemma follow_success_inv (st st' : Store) (a b : option string) (msg : string) :
  follow st a b = (Success 200 msg, st') →
  ∃ A B, a = Some A ∧ b = Some B ∧ A ≠ B ∧ A ≠ "" ∧ B ≠ ""
         ∧ is_Some (users st !! A) ∧ is_Some (users st !! B).
Proof.
  unfold follow. intros H.
  destruct (truthy a) as [A|] eqn:Ha; [|by destruct (truthy b)].
  destruct (truthy b) as [B|] eqn:Hb; [|done].
  apply truthy_inv in Ha as [-> HA]. apply truthy_inv in Hb as [-> HB].
  case_decide; [done|].
  destruct (users st !! A) eqn:HuA; [|done].
  destruct (users st !! B) eqn:HuB; [|done].
  exists A, B. eauto 10.
Qed.





(** ** Referential integrity is kept by the relationship graph *)

Lemma references_resolve_save_following (st : Store) (id : string) (v : list string) :
  references_resolve st →
  (∀ x, x ∈ v → is_Some (users st !! x)) →
  references_resolve (save_following id v st).
Proof.
  intros [Hempty Href] Hv. split.
  - unfold save_following; simpl. rewrite lookup_alter.
    case_decide; [subst; by rewrite Hempty|done].
  - intros id0 u x Hu Hx. apply known_save_following.
    unfold save_following in Hu; simpl in Hu.
    destruct (decide (id = id0)) as [->|Hne].
    + rewrite lookup_alter_eq in Hu.
      destruct (users st !! id0) as [u0|] eqn:Hu0; [|done].
      injection Hu as <-. simpl in Hx. destruct Hx as [Hx|Hx]; eauto.
    + rewrite lookup_alter_ne in Hu by done. eauto.
Qed.

Lemma references_resolve_save_followers (st : Store) (id : string) (v : list string) :
  references_resolve st →
  (∀ x, x ∈ v → is_Some (users st !! x)) →
  references_resolve (save_followers id v st).
Proof.
  intros [Hempty Href] Hv. split.
  - unfold save_followers; simpl. rewrite lookup_alter.
    case_decide; [subst; by rewrite Hempty|done].
  - intros id0 u x Hu Hx. apply known_save_followers.
    unfold save_followers in Hu; simpl in Hu.
    destruct (decide (id = id0)) as [->|Hne].
    + rewrite lookup_alter_eq in Hu.
      destruct (users st !! id0) as [u0|] eqn:Hu0; [|done].
      injection Hu as <-. simpl in Hx. destruct Hx as [Hx|Hx]; eauto.
    + rewrite lookup_alter_ne in Hu by done. eauto.
Qed.

Lemma references_resolve_empty : references_resolve (mkStore ∅ ∅).
Proof. split; [done|]. intros id u x Hu. simpl in Hu. by rewrite lookup_empty in Hu. Qed.

Lemma follow_preserves_references (st : Store) (a b : option string) :
  references_resolve st → references_resolve (follow st a b).2.
Proof.
  intros Hwf. unfold follow.
  destruct (truthy a) as [A|]; [|by destruct (truthy b)].
  destruct (truthy b) as [B|]; [|done].
  case_decide; [done|].
  destruct (users st !! A) as [me|] eqn:Hme; [|done].
  destruct (users st !! B) as [them|] eqn:Hthem; [|done]. simpl.
  set (st1 := if decide (B ∈ following me) then st
              else save_following A (following me ++ [B]) st).
  assert (references_resolve st1) as Hwf1.
  { unfold st1. case_decide; [done|].
    apply references_resolve_save_following; [done|].
    intros x [Hx| ->%list_elem_of_singleton]%elem_of_app; [|eauto].
    destruct Hwf as [_ Href]. eauto. }
  assert (∀ x, is_Some (users st !! x) → is_Some (users st1 !! x)) as Hknown.
  { intros x Hx. unfold st1. case_decide; [done|]. by apply known_save_following. }
  case_decide; [done|].
  apply references_resolve_save_followers; [done|].
  intros x [Hx| ->%list_elem_of_singleton]%elem_of_app; [|eauto].
  destruct Hwf as [_ Href]. eauto.
Qed.

Lemma unfollow_preserves_references (st : Store) (a b : option string) :
  references_resolve st → references_resolve (unfollow st a b).2.
Proof.
  intros Hwf. unfold unfollow.
  destruct (truthy a) as [A|]; [|by destruct (truthy b)].
  destruct (truthy b) as [B|]; [|done].
  destruct (users st !! A) as [me|] eqn:Hme; [|done].
  destruct (users st !! B) as [them|] eqn:Hthem; [|done]. simpl.
  pose proof Hwf as [_ Href].
  apply references_resolve_save_followers.
  - apply references_resolve_save_following; [done|].
    intros x [_ Hx]%list_elem_of_filter. eauto.
  - intros x [_ Hx]%list_elem_of_filter. apply known_save_following. eauto.
Qed.

(** ** Profile view composer *)

Lemma summary_id (st : Store) (id : string) (s : UserSummary) :
  summary st id = Some s → summaryId s = id.
Proof.
  unfold summary. destruct (users st !! id); [|done]. by intros [= <-].
Qed.

Lemma summary_is_Some (st : Store) (id : string) :
  is_Some (summary st id) ↔ is_Some (users st !! id).
Proof. unfold summary. by rewrite fmap_is_Some. Qed.


Lemma populate_length (st : Store) (ids : list string) :
  (∀ x, x ∈ ids → is_Some (users st !! x)) →
  length (populate st ids) = length ids.
Proof.
  unfold populate. induction ids as [|x ids IH]; [done|]. intros Hall. simpl.
  destruct (summary st x) as [s|] eqn:Hs.
  - simpl. f_equal. apply IH. intros y Hy. apply Hall. by right.
  - assert (is_Some (summary st x)) as [? ?]; [|congruence].
    apply summary_is_Some, Hall. by left.
Qed.



(** With resolving references the counters are the sizes of the stored
    relationship arrays. *)
Lemma profile_counts (st : Store) (id : string) (u : User) (myId : option string) :
  references_resolve st →
  users st !! id = Some u →
  ∃ pv, get_profile st id myId = Success 200 pv
        ∧ followersCount pv = length (followers u)
        ∧ followingCount pv = length (following u).
Proof.
  intros [_ Href] Hu. unfold get_profile. rewrite Hu.
  eexists. split; [reflexivity|]. simpl.
  split; apply populate_length; eauto.
Qed.

(** ** Engagement ledger: the like toggle *)

Lemma already_liked_iff (u : string) (l : list string) :
  existsb (λ id, bool_decide (id = u)) l = true ↔ u ∈ l.
Proof.
  induction l as [|x l IH]; simpl.
  - split; [done|]. by intros ?%elem_of_nil.
  - rewrite orb_true_iff, IH, bool_decide_eq_true, elem_of_cons. naive_solver.
Qed.

Lemma toggle_liked (u : string) (p : Post) :
  u ∈ likedBy p →
  toggle u p = with_likes (Z.max (likes p - 1) 0)
                 (filter (λ id, id ≠ u) (likedBy p)) p.
Proof.
  intros Hu. unfold toggle. apply already_liked_iff in Hu. by rewrite Hu.
Qed.

Lemma toggle_not_liked (u : string) (p : Post) :
  u ∉ likedBy p →
  toggle u p = with_likes (likes p + 1) (likedBy p ++ [u]) p.
Proof.
  intros Hu. unfold toggle.
  destruct (existsb _ _) eqn:He; [|done]. by apply already_liked_iff in He.
Qed.

Lemma not_liked_after_filter (u : string) (l : list string) :
  u ∉ filter (λ id, id ≠ u) l.
Proof. rewrite list_elem_of_filter. naive_solver. Qed.

Lemma liked_set_push (u : string) (l : list string) :
  (list_to_set (l ++ [u]) : gset string) = list_to_set l ∪ {[u]}.
Proof. rewrite list_to_set_app_L. simpl. set_solver. Qed.

Lemma liked_set_filter (u : string) (l : list string) :
  (list_to_set (filter (λ id, id ≠ u) l) : gset string) = list_to_set l ∖ {[u]}.
Proof.
  apply set_eq. intros x.
  rewrite elem_of_difference, !elem_of_list_to_set, list_elem_of_filter.
  set_solver.
Qed.

Lemma toggle_consistent (u : string) (p : Post) :
  like_consistent p → like_consistent (toggle u p).
Proof.
  unfold like_consistent, liked_by_cardinal. intros Hc.
  destruct (decide (u ∈ likedBy p)) as [Hu|Hu].
  - rewrite toggle_liked by done. simpl. rewrite liked_set_filter.
    assert ({[u]} ⊆ (list_to_set (likedBy p) : gset string)) as Hsub.
    { apply singleton_subseteq_l, elem_of_list_to_set. done. }
    pose proof (size_difference _ _ Hsub) as Hsz.
    rewrite size_singleton in Hsz.
    assert (size (list_to_set (likedBy p) : gset string) ≠ 0%nat) as Hpos.
    { apply size_non_empty_iff. intros Heq.
      assert (u ∈ (list_to_set (likedBy p) : gset string)) as Hin
        by (by apply elem_of_list_to_set).
      rewrite Heq in Hin. set_solver. }
    rewrite Hsz, Hc. lia.
  - rewrite toggle_not_liked by done. simpl. rewrite liked_set_push.
    rewrite size_union by (rewrite disjoint_singleton_r, elem_of_list_to_set; done).
    rewrite size_singleton, Hc. lia.
Qed.

Lemma toggle_NoDup (u : string) (p : Post) :
  NoDup (likedBy p) → NoDup (likedBy (toggle u p)).
Proof.
  intros Hnd. destruct (decide (u ∈ likedBy p)) as [Hu|Hu].
  - rewrite toggle_liked by done. simpl. by apply NoDup_filter.
  - rewrite toggle_not_liked by done. simpl.
    apply NoDup_app. split; [done|]. split; [|apply NoDup_singleton].
    intros x Hx ->%list_elem_of_singleton. done.
Qed.

(** The like handler on a stored post, for a request with both fields. *)
Lemma toggle_like_stored (st : Store) (pid uid : string) (post : Post) :
  pid ≠ "" → uid ≠ "" → posts st !! pid = Some post →
  toggle_like st (Some pid) (Some uid)
  = (Success 200 (mkLikeReply "Post like updated."
                    (likes (toggle uid post)) (likedBy (toggle uid post))),
     save_post pid (toggle uid post) st).
Proof.
  intros Hp Hu Hpost. unfold toggle_like. rewrite !truthy_Some by done.
  by rewrite Hpost.
Qed.

(** Two toggles by the same user, on the post itself. *)
Lemma toggle_toggle (u : string) (p : Post) :
  like_consistent p →
  likes (toggle u (toggle u p)) = likes p
  ∧ (list_to_set (likedBy (toggle u (toggle u p))) : gset string)
    = list_to_set (likedBy p)
  ∧ (NoDup (likedBy p) → likedBy (toggle u (toggle u p)) ≡ₚ likedBy p)
  ∧ (u ∉ likedBy p → likedBy (toggle u (toggle u p)) = likedBy p).
Proof.
  unfold like_consistent, liked_by_cardinal. intros Hc.
  destruct (decide (u ∈ likedBy p)) as [Hu|Hu].
  - rewrite (toggle_liked u p) by done.
    rewrite toggle_not_liked by (simpl; apply not_liked_after_filter). simpl.
    assert (size (list_to_set (likedBy p) : gset string) ≠ 0%nat) as Hpos.
    { apply size_non_empty_iff. intros Heq.
      assert (u ∈ (list_to_set (likedBy p) : gset string)) as Hin
        by (by apply elem_of_list_to_set).
      rewrite Heq in Hin. by apply not_elem_of_empty in Hin. }
    split; [lia|]. split; [|split; [|done]].
    + rewrite liked_set_push, liked_set_filter.
      apply set_eq. intros x.
      rewrite elem_of_union, elem_of_difference, elem_of_singleton,
        elem_of_list_to_set.
      destruct (decide (x = u)) as [->|Hx]; [|tauto]. tauto.
    + intros Hnd. clear Hc Hpos.
      induction (likedBy p) as [|x l IH]; [by apply elem_of_nil in Hu|].
      apply NoDup_cons in Hnd as [Hx Hnd].
      destruct (decide (x = u)) as [->|Hne].
      * rewrite filter_cons_False by (intros H; by apply H).
        rewrite filter_absent by done.
        symmetry. apply Permutation_cons_append.
      * rewrite filter_cons_True by done. simpl. constructor.
        apply IH; [|done]. apply elem_of_cons in Hu as [->|Hu]; done.
  - rewrite (toggle_not_liked u p) by done.
    rewrite toggle_liked by (simpl; set_solver). simpl.
    rewrite filter_app, filter_absent by done.
    rewrite filter_cons_False by (intros H; by apply H).
    rewrite filter_nil, app_nil_r.
    split; [lia|]. done.
Qed.

(** ** Feed assembler *)

Global Instance newer_or_equal_total : Total newer_or_equal.
Proof. intros a b. unfold newer_or_equal. lia. Qed.

(** A database that sorts by merging meets the contract of the sort. *)
Lemma merge_sort_newest_first (found : list (string * Post)) :
  sorted_newest_first found (merge_sort newer_or_equal found).
Proof.
  split.
  - apply merge_sort_Permutation.
  - apply (Sorted_merge_sort newer_or_equal).
Qed.

(** The handler always has a response: the one of [get_posts_run]. *)
Lemma get_posts_total (st : Store) (userId_q : option string) :
  get_posts st userId_q (get_posts_run st userId_q).
Proof.
  exists (merge_sort newer_or_equal (find_posts st userId_q)).
  split; [apply merge_sort_newest_first|done].
Qed.

Lemma find_posts_author (st : Store) (X : string) (doc : string * Post) :
  X ≠ "" →
  doc ∈ find_posts st (Some X) ↔ posts st !! doc.1 = Some doc.2 ∧ userId doc.2 = X.
Proof.
  intros HX. unfold find_posts, selected. rewrite truthy_Some by done.
  rewrite list_elem_of_filter. destruct doc as [k p]. simpl.
  rewrite elem_of_map_to_list, bool_decide_spec. tauto.
Qed.

Lemma feed_entry_fields (st : Store) (doc : string * Post) (e : FeedEntry) :
  feed_entry st doc = Some e →
  entryId e = doc.1 ∧ entryUserId e = userId doc.2
  ∧ entryCreatedAt e = createdAt doc.2
  ∧ entryLikes e = likes doc.2 ∧ entryLikedBy e = likedBy doc.2
  ∧ entryComments e = length (comments doc.2)
  ∧ is_Some (users st !! userId doc.2).
Proof.
  unfold feed_entry. destruct (summary st (userId doc.2)) as [s|] eqn:Hs; [|done].
  simpl. intros [= <-]. simpl. rewrite (summary_id _ _ _ Hs).
  repeat split. apply summary_is_Some. eauto.
Qed.

Lemma feed_entry_None (st : Store) (doc : string * Post) :
  feed_entry st doc = None ↔ users st !! userId doc.2 = None.
Proof.
  unfold feed_entry, summary. destruct (users st !! userId doc.2); simpl; done.
Qed.

(** An order on the documents is carried to the entries made from them. *)
Lemma Sorted_transfer {A B : Type} (T : A → B → Prop)
    (P : A → A → Prop) (Q : B → B → Prop) (l : list A) (k : list B) :
  (∀ a a' b b', T a b → T a' b' → P a a' → Q b b') →
  Forall2 T l k → Sorted P l → Sorted Q k.
Proof.
  intros HT HF. induction HF as [|a b l k Hab HF IH]; intros HS.
  - constructor.
  - apply Sorted_inv in HS as [HS Hhd]. constructor; [by apply IH|].
    destruct HF as [|a' b' l' k' Hab' HF']; constructor.
    apply HdRel_inv in Hhd. by eapply HT.
Qed.

Lemma mapM_None_elem {A B : Type} (f : A → option B) (l : list A) :
  mapM f l = None → ∃ x, x ∈ l ∧ f x = None.
Proof.
  induction l as [|x l IH]; [done|]. simpl.
  destruct (f x) as [y|] eqn:Hx; simpl.
  - destruct (mapM f l); [done|]. intros _.
    destruct IH as (z & Hz & Hfz); [done|]. exists z. split; [by right|done].
  - intros _. exists x. split; [by left|done].
Qed.

(** * Further properties of the handlers *)

(** ** Relationship graph: what a request changes *)

Lemma following_of_save_following_ne (st : Store) (id a : string) (v : list string) :
  id ≠ a → following_of (save_following id v st) a = following_of st a.
Proof.
  intros Hne. unfold following_of, save_following. simpl.
  by rewrite lookup_alter_ne.
Qed.

Lemma followers_of_save_followers_ne (st : Store) (id a : string) (v : list string) :
  id ≠ a → followers_of (save_followers id v st) a = followers_of st a.
Proof.
  intros Hne. unfold followers_of, save_followers. simpl.
  by rewrite lookup_alter_ne.
Qed.

(** A follow request either leaves the store as it is or names two
    distinct, non-empty ids of stored users. *)
Lemma follow_cases (st : Store) (a b : option string) :
  (follow st a b).2 = st
  ∨ ∃ A B, a = Some A ∧ b = Some B ∧ A ≠ B ∧ A ≠ "" ∧ B ≠ ""
           ∧ is_Some (users st !! A) ∧ is_Some (users st !! B).
Proof.
  unfold follow.
  destruct (truthy a) as [A|] eqn:Ha; [|left; by destruct (truthy b)].
  destruct (truthy b) as [B|] eqn:Hb; [|by left].
  apply truthy_inv in Ha as [-> HA]. apply truthy_inv in Hb as [-> HB].
  case_decide; [by left|].
  destruct (users st !! A) eqn:HuA; [|by left].
  destruct (users st !! B) eqn:HuB; [|by left].
  right. exists A, B. eauto 10.
Qed.

(** An unfollow request either leaves the store as it is or names two
    non-empty ids of stored users. *)
Lemma unfollow_cases (st : Store) (a b : option string) :
  (unfollow st a b).2 = st
  ∨ ∃ A B, a = Some A ∧ b = Some B ∧ A ≠ "" ∧ B ≠ ""
           ∧ is_Some (users st !! A) ∧ is_Some (users st !! B).
Proof.
  unfold unfollow.
  destruct (truthy a) as [A|] eqn:Ha; [|left; by destruct (truthy b)].
  destruct (truthy b) as [B|] eqn:Hb; [|by left].
  apply truthy_inv in Ha as [-> HA]. apply truthy_inv in Hb as [-> HB].
  destruct (users st !! A) eqn:HuA; [|by left].
  destruct (users st !! B) eqn:HuB; [|by left].
  right. exists A, B. eauto 10.
Qed.

(** The [following] arrays after a follow request that passes the guards. *)
Lemma follow_following_of (st : Store) (A B a : string) :
  A ≠ B → A ≠ "" → B ≠ "" →
  is_Some (users st !! A) → is_Some (users st !! B) →
  following_of (follow st (Some A) (Some B)).2 a
  = if decide (a = A)
    then (if decide (B ∈ following_of st A) then following_of st A
          else following_of st A ++ [B])
    else following_of st a.
Proof.
  intros Hne HA HB [me Hme] [them Hthem].
  unfold follow. rewrite !truthy_Some by done.
  rewrite decide_False by done. rewrite Hme, Hthem. simpl.
  assert (following_of st A = following me) as HfA.
  { unfold following_of. by rewrite Hme. }
  rewrite HfA.
  destruct (decide (A ∈ followers them));
    [|rewrite following_of_save_followers];
    (destruct (decide (B ∈ following me));
     [by case_decide; subst
     |case_decide as Ha;
      [subst a; apply following_of_save_following; eauto
      |by apply following_of_save_following_ne]]).
Qed.

(** The [followers] arrays after a follow request that passes the guards. *)
Lemma follow_followers_of (st : Store) (A B b : string) :
  A ≠ B → A ≠ "" → B ≠ "" →
  is_Some (users st !! A) → is_Some (users st !! B) →
  followers_of (follow st (Some A) (Some B)).2 b
  = if decide (b = B)
    then (if decide (A ∈ followers_of st B) then followers_of st B
          else followers_of st B ++ [A])
    else followers_of st b.
Proof.
  intros Hne HA HB [me Hme] [them Hthem].
  unfold follow. rewrite !truthy_Some by done.
  rewrite decide_False by done. rewrite Hme, Hthem. simpl.
  assert (followers_of st B = followers them) as HfB.
  { unfold followers_of. by rewrite Hthem. }
  rewrite HfB.
  set (st1 := if decide (B ∈ following me) then st
              else save_following A (following me ++ [B]) st).
  assert (∀ x, followers_of st1 x = followers_of st x) as Hst1.
  { intros x. unfold st1. case_decide; [done|].
    apply followers_of_save_following. }
  assert (is_Some (users st1 !! B)) as Hknown.
  { unfold st1. case_decide; [eauto|]. apply known_save_following. eauto. }
  destruct (decide (A ∈ followers them)).
  - rewrite Hst1. by case_decide; subst.
  - case_decide as Hb.
    + subst b. by apply followers_of_save_followers.
    + rewrite followers_of_save_followers_ne by done. apply Hst1.
Qed.

(** The [following] arrays after an unfollow request that passes the
    guards. *)
Lemma unfollow_following_of (st : Store) (A B a : string) :
  A ≠ "" → B ≠ "" →
  is_Some (users st !! A) → is_Some (users st !! B) →
  following_of (unfollow st (Some A) (Some B)).2 a
  = if decide (a = A) then filter (λ id, id ≠ B) (following_of st A)
    else following_of st a.
Proof.
  intros HA HB [me Hme] [them Hthem].
  unfold unfollow. rewrite !truthy_Some by done. rewrite Hme, Hthem. simpl.
  rewrite following_of_save_followers.
  case_decide as Ha.
  - subst a. rewrite following_of_save_following by eauto.
    unfold following_of. by rewrite Hme.
  - by apply following_of_save_following_ne.
Qed.

(** The [followers] arrays after an unfollow request that passes the
    guards. *)
Lemma unfollow_followers_of (st : Store) (A B b : string) :
  A ≠ "" → B ≠ "" →
  is_Some (users st !! A) → is_Some (users st !! B) →
  followers_of (unfollow st (Some A) (Some B)).2 b
  = if decide (b = B) then filter (λ id, id ≠ A) (followers_of st B)
    else followers_of st b.
Proof.
  intros HA HB [me Hme] [them Hthem].
  unfold unfollow. rewrite !truthy_Some by done. rewrite Hme, Hthem. simpl.
  case_decide as Hb.
  - subst b. rewrite followers_of_save_followers.
    + unfold followers_of. by rewrite Hthem.
    + apply known_save_following. eauto.
  - rewrite followers_of_save_followers_ne by done.
    apply followers_of_save_following.
Qed.

(** ** Relationship graph: invariants of every sequence of requests *)



Lemma follow_keeps_no_self (st : Store) (a b : option string) :
  no_self_follow st → no_self_follow (follow st a b).2.
Proof.
  intros Hno.
  destruct (follow_cases st a b) as [->|(A & B & -> & -> & Hne & HA & HB & HsA & HsB)];
    [done|].
  intros x. destruct (Hno x) as [H1 H2].
  rewrite follow_following_of, follow_followers_of by done.
  repeat case_decide; subst; rewrite ?elem_of_app, ?list_elem_of_singleton;
    naive_solver.
Qed.

Lemma unfollow_keeps_no_self (st : Store) (a b : option string) :
  no_self_follow st → no_self_follow (unfollow st a b).2.
Proof.
  intros Hno.
  destruct (unfollow_cases st a b) as [->|(A & B & -> & -> & HA & HB & HsA & HsB)];
    [done|].
  intros x. destruct (Hno x) as [H1 H2].
  rewrite unfollow_following_of, unfollow_followers_of by done.
  repeat case_decide; subst; rewrite ?list_elem_of_filter; naive_solver.
Qed.

Lemma follow_keeps_duplicate_free (st : Store) (a b : option string) :
  relations_duplicate_free st → relations_duplicate_free (follow st a b).2.
Proof.
  intros Hnd.
  destruct (follow_cases st a b) as [->|(A & B & -> & -> & Hne & HA & HB & HsA & HsB)];
    [done|].
  intros x. destruct (Hnd x) as [H1 H2].
  rewrite follow_following_of, follow_followers_of by done.
  split; repeat case_decide; subst; try done;
    (apply NoDup_app; split; [done|]; split; [|apply NoDup_singleton];
     by intros z Hz ->%list_elem_of_singleton).
Qed.

Lemma unfollow_keeps_duplicate_free (st : Store) (a b : option string) :
  relations_duplicate_free st → relations_duplicate_free (unfollow st a b).2.
Proof.
  intros Hnd.
  destruct (unfollow_cases st a b) as [->|(A & B & -> & -> & HA & HB & HsA & HsB)];
    [done|].
  intros x. destruct (Hnd x) as [H1 H2].
  rewrite unfollow_following_of, unfollow_followers_of by done.
  split; repeat case_decide; subst; try done; by apply NoDup_filter.
Qed.

(** A property of stores that every follow and every unfollow request
    keeps is kept by every sequence of them. *)
Lemma graph_run_invariant (P : Store → Prop) :
  (∀ st a b, P st → P (follow st a b).2) →
  (∀ st a b, P st → P (unfollow st a b).2) →
  ∀ reqs st, P st → P (graph_run st reqs).
Proof.
  intros Hf Hu reqs. induction reqs as [|req reqs IH]; intros st HP; [done|].
  unfold graph_run. simpl. apply IH. destruct req; simpl; eauto.
Qed.

(** X3. Every sequence of follow and unfollow requests keeps referential
    integrity: no reference to an unknown user is ever stored. *)
Theorem graph_run_references (st : Store) (reqs : list GraphRequest) :
  references_resolve st → references_resolve (graph_run st reqs).
Proof.
  apply (graph_run_invariant references_resolve
           follow_preserves_references unfollow_preserves_references).
Qed.

Lemma example_store_no_edges (a : string) :
  following_of example_store a = [] ∧ followers_of example_store a = [].
Proof.
  unfold following_of, followers_of, example_store, example_users. simpl.
  destruct (decide (a = "a1")) as [->|Ha]; [done|].
  destruct (decide (a = "b2")) as [->|Hb]; [done|].
  by rewrite !lookup_insert_ne, lookup_empty by done.
Qed.

Lemma example_store_symmetric : graph_symmetric example_store.
Proof.
  intros a b. destruct (example_store_no_edges a) as [-> _].
  destruct (example_store_no_edges b) as [_ ->].
  split; by intros ?%elem_of_nil.
Qed.

Lemma example_store_no_self : no_self_follow example_store.
Proof.
  intros a. destruct (example_store_no_edges a) as [-> ->].
  split; apply not_elem_of_nil.
Qed.

Lemma example_store_duplicate_free : relations_duplicate_free example_store.
Proof.
  intros a. destruct (example_store_no_edges a) as [-> ->].
  split; apply NoDup_nil_2.
Qed.

Lemma example_store_references : references_resolve example_store.
Proof.
  split; [done|]. intros id u x Hu Hx.
  assert (following_of example_store id = following u) as Hfg.
  { unfold following_of. by rewrite Hu. }
  assert (followers_of example_store id = followers u) as Hfs.
  { unfold followers_of. by rewrite Hu. }
  destruct (example_store_no_edges id) as [Hg Hs].
  rewrite Hg in Hfg. rewrite Hs in Hfs. rewrite <- Hfg, <- Hfs in Hx.
  destruct Hx as [Hx|Hx]; by apply elem_of_nil in Hx.
Qed.

Lemma graph_run_references_witness :
  references_resolve
    (graph_run example_store
       [FollowRequest (Some "a1") (Some "b2");
        FollowRequest (Some "a1") (Some "zz")]).
Proof.
  apply (graph_run_references example_store).
  apply example_store_references.
Defined.

(** ** Relationship graph: how requests compose *)

Lemma following_of_stored (st : Store) (A x : string) :
  x ∈ following_of st A → ∃ u, users st !! A = Some u ∧ following_of st A = following u.
Proof.
  unfold following_of. destruct (users st !! A) as [u|]; [eauto|].
  by intros ?%elem_of_nil.
Qed.

Lemma followers_of_stored (st : Store) (B x : string) :
  x ∈ followers_of st B → ∃ u, users st !! B = Some u ∧ followers_of st B = followers u.
Proof.
  unfold followers_of. destruct (users st !! B) as [u|]; [eauto|].
  by intros ?%elem_of_nil.
Qed.

(** Following a user one is connected to on both sides changes nothing. *)
Lemma follow_connected_noop (st : Store) (a b : option string) (A B : string) :
  a = Some A → b = Some B →
  B ∈ following_of st A → A ∈ followers_of st B →
  (follow st a b).2 = st.
Proof.
  intros -> -> Hfg Hfs.
  destruct (following_of_stored _ _ _ Hfg) as (me & Hme & HfA).
  destruct (followers_of_stored _ _ _ Hfs) as (them & Hthem & HfB).
  rewrite HfA in Hfg. rewrite HfB in Hfs.
  unfold follow.
  destruct (truthy (Some A)) as [A'|] eqn:Ha; [|by destruct (truthy (Some B))].
  destruct (truthy (Some B)) as [B'|] eqn:Hb; [|done].
  apply truthy_inv in Ha as [[= <-] _]. apply truthy_inv in Hb as [[= <-] _].
  case_decide; [done|]. rewrite Hme, Hthem. simpl.
  by rewrite !decide_True.
Qed.






(** ** Relationship graph and the views of it *)










Lemma populate_ids (st : Store) (ids : list string) :
  (∀ x, x ∈ ids → is_Some (users st !! x)) →
  summaryId <$> populate st ids = ids.
Proof.
  unfold populate. induction ids as [|x ids IH]; [done|]. intros Hall. simpl.
  destruct (summary st x) as [s|] eqn:Hs.
  - simpl. rewrite (summary_id _ _ _ Hs). f_equal. apply IH.
    intros y Hy. apply Hall. by right.
  - assert (is_Some (summary st x)) as [? ?]; [|congruence].
    apply summary_is_Some, Hall. by left.
Qed.

Lemma populate_elem (st : Store) (ids : list string) (s : UserSummary) :
  s ∈ populate st ids →
  summaryId s ∈ ids
  ∧ ∃ u, users st !! summaryId s = Some u
         ∧ summaryFirstName s = firstName u
         ∧ summaryLastName s = lastName u
         ∧ summaryProfileImage s = profileImage u.
Proof.
  unfold populate. rewrite list_elem_of_omap. intros (x & Hx & Hs).
  pose proof (summary_id _ _ _ Hs) as Hid. rewrite Hid. split; [done|].
  unfold summary in Hs. destruct (users st !! x) as [u|]; [|done].
  injection Hs as <-. eauto.
Qed.

(** X10. On a store with referential integrity, the followers list and the
    following list of a stored user are answered with success; they hold
    the stored ids in the stored order, each with the names and the image
    of the user it points to. *)
Theorem relationship_lists (st : Store) (id : string) (u : User) :
  references_resolve st →
  users st !! id = Some u →
  ∃ l1 l2,
    get_followers st id = Success 200 l1
    ∧ get_following st id = Success 200 l2
    ∧ summaryId <$> l1 = followers u
    ∧ summaryId <$> l2 = following u
    ∧ ∀ s, s ∈ l1 ++ l2 →
           ∃ v, users st !! summaryId s = Some v
                ∧ summaryFirstName s = firstName v
                ∧ summaryLastName s = lastName v
                ∧ summaryProfileImage s = profileImage v.
Proof.
  intros [_ Href] Hu. unfold get_followers, get_following. rewrite Hu.
  eexists _, _. split; [reflexivity|]. split; [reflexivity|].
  split; [|split].
  - apply populate_ids. eauto.
  - apply populate_ids. eauto.
  - intros s [Hs|Hs]%elem_of_app; by apply populate_elem in Hs as [_ ?].
Qed.

Lemma relationship_lists_witness :
  let st := (follow example_store (Some "a1") (Some "b2")).2 in
  ∃ l1 l2,
    get_followers st "b2" = Success 200 l1
    ∧ get_following st "b2" = Success 200 l2
    ∧ summaryId <$> l1 = ["a1"]
    ∧ summaryId <$> l2 = []
    ∧ ∀ s, s ∈ l1 ++ l2 →
           ∃ v, users st !! summaryId s = Some v
                ∧ summaryFirstName s = firstName v
                ∧ summaryLastName s = lastName v
                ∧ summaryProfileImage s = profileImage v.
Proof.
  intros st.
  apply (relationship_lists st "b2"
           (mkUser "Bob" "Ray" "bob@example.org" "hash" "" "" "" "" ["a1"] [] 2)).
  - apply follow_preserves_references, example_store_references.
  - done.
Defined.

(** ** Engagement ledger: likes *)

Lemma toggle_membership (u v : string) (p : Post) :
  v ∈ likedBy (toggle u p)
  ↔ (v = u ∧ u ∉ likedBy p) ∨ (v ≠ u ∧ v ∈ likedBy p).
Proof.
  destruct (decide (u ∈ likedBy p)) as [Hu|Hu].
  - rewrite toggle_liked by done. simpl. rewrite list_elem_of_filter.
    destruct (decide (v = u)) as [->|Hv]; naive_solver.
  - rewrite toggle_not_liked by done. simpl.
    rewrite elem_of_app, list_elem_of_singleton.
    destruct (decide (v = u)) as [->|Hv]; naive_solver.
Qed.

Lemma liked_cardinal_positive (u : string) (l : list string) :
  u ∈ l → (0 < size (list_to_set l : gset string))%nat.
Proof.
  intros Hu.
  assert (size (list_to_set l : gset string) ≠ 0%nat); [|lia].
  apply size_non_empty_iff. intros Heq.
  assert (u ∈ (list_to_set l : gset string)) as Hin
    by (by apply elem_of_list_to_set).
  rewrite Heq in Hin. by apply not_elem_of_empty in Hin.
Qed.

Lemma with_likes_back (n : Z) (l : list string) (p : Post) :
  with_likes (likes p) (likedBy p) (with_likes n l p) = p.
Proof. by destruct p. Qed.

(** X13. A like request, whatever it names, changes no user, creates and
    deletes no post, and changes nothing of a post but [likes] and
    [likedBy]. *)
Theorem toggle_like_frame (st : Store) (a b : option string) (pid : string) :
  users (toggle_like st a b).2 = users st
  ∧ match posts st !! pid with
    | None => posts (toggle_like st a b).2 !! pid = None
    | Some post =>
        ∃ post', posts (toggle_like st a b).2 !! pid = Some post'
                 ∧ with_likes (likes post) (likedBy post) post' = post
    end.
Proof.
  assert (users st = users st
          ∧ match posts st !! pid with
            | None => posts st !! pid = None
            | Some post =>
                ∃ post', posts st !! pid = Some post'
                         ∧ with_likes (likes post) (likedBy post) post' = post
            end) as Hsame.
  { split; [done|]. destruct (posts st !! pid) as [post|]; [|done].
    exists post. split; [done|]. by destruct post. }
  unfold toggle_like.
  destruct (truthy a) as [pid'|]; [|by destruct (truthy b)].
  destruct (truthy b) as [uid|]; [|done].
  destruct (posts st !! pid') as [post0|] eqn:Hpost0; [|done].
  simpl. split; [done|].
  destruct (decide (pid' = pid)) as [->|Hne].
  - rewrite Hpost0, lookup_insert_eq. eexists. split; [done|].
    unfold toggle. destruct (existsb _ _); apply with_likes_back.
  - rewrite lookup_insert_ne by done. apply Hsame.
Qed.

(** ** Engagement ledger: shares *)

Lemma share_post_stored (st : Store) (pid uid : string) (post : Post) :
  pid ≠ "" → uid ≠ "" → posts st !! pid = Some post →
  share_post st (Some pid) (Some uid)
  = (Success 200 ("Post shared successfully.", shares post + 1),
     save_post pid (with_shares (shares post + 1) post) st).
Proof.
  intros Hp Hu Hpost. unfold share_post. rewrite !truthy_Some by done.
  by rewrite Hpost.
Qed.

Lemma save_post_same (st : Store) (pid : string) (post : Post) :
  posts st !! pid = Some post → save_post pid post st = st.
Proof.
  intros Hpost. destruct st as [us ps]. unfold save_post. simpl in *.
  f_equal. by apply insert_id.
Qed.

Lemma save_post_twice (st : Store) (pid : string) (p q : Post) :
  save_post pid q (save_post pid p st) = save_post pid q st.
Proof. unfold save_post. simpl. by rewrite insert_insert_eq. Qed.

(** X14. On a stored post, [n] share requests in a row, by whatever user,
    add exactly [n] to [shares] and change nothing else in the store: the
    same user is counted every time. *)
Theorem share_times_adds (n : nat) (st : Store) (pid uid : string) (post : Post) :
  pid ≠ "" → uid ≠ "" →
  posts st !! pid = Some post →
  share_times n st (Some pid) (Some uid)
  = save_post pid (with_shares (shares post + Z.of_nat n) post) st.
Proof.
  intros Hp Hu Hpost. induction n as [|n IH].
  - simpl. rewrite Z.add_0_r. symmetry. apply save_post_same.
    rewrite Hpost. f_equal. by destruct post.
  - unfold share_times in *. simpl. rewrite IH.
    rewrite (share_post_stored _ pid uid
               (with_shares (shares post + Z.of_nat n) post)); try done.
    + simpl. rewrite save_post_twice. f_equal.
      unfold with_shares. simpl. f_equal. lia.
    + simpl. by rewrite lookup_insert_eq.
Qed.

Lemma share_times_adds_witness :
  let post := mkPost "a1" "hello" "" "" 2 ["u1"; "u2"] 5 [] 10 in
  let st := mkStore ∅ (<["p1" := post]> ∅) in
  share_times 3 st (Some "p1") (Some "u1")
  = save_post "p1" (with_shares (shares post + Z.of_nat 3) post) st.
Proof.
  intros post st. by apply (share_times_adds 3 st "p1" "u1" post).
Defined.

(** ** Feed assembler: what a listing holds *)

Lemma find_posts_elem (st : Store) (q : option string) (doc : string * Post) :
  doc ∈ find_posts st q ↔ posts st !! doc.1 = Some doc.2 ∧ selected q doc = true.
Proof.
  unfold find_posts. rewrite list_elem_of_filter. destruct doc as [k p]. simpl.
  rewrite elem_of_map_to_list, Is_true_true. tauto.
Qed.

Lemma find_posts_NoDup (st : Store) (q : option string) :
  NoDup (find_posts st q).*1.
Proof.
  unfold find_posts.
  apply (sublist_NoDup _ (map_to_list (posts st)).*1);
    [apply NoDup_fst_map_to_list|].
  apply fmap_sublist, sublist_filter.
Qed.

Lemma feed_entry_stored (st : Store) (doc : string * Post) (e : FeedEntry) :
  feed_entry st doc = Some e →
  ∃ author, users st !! userId doc.2 = Some author
            ∧ e = mkFeedEntry doc.1 (userId doc.2)
                    (firstName author +:+ " " +:+ lastName author)
                    (profileImage author) (text doc.2) (image doc.2)
                    (video doc.2) (likes doc.2) (likedBy doc.2) (shares doc.2)
                    (length (comments doc.2)) (createdAt doc.2).
Proof.
  unfold feed_entry, summary.
  destruct (users st !! userId doc.2) as [author|]; [|done].
  simpl. intros [= <-]. eauto.
Qed.

Lemma render_posts_ids (st : Store) (docs : list (string * Post))
    (code : nat) (entries : list FeedEntry) :
  render_posts st docs = Success code entries →
  code = 200%nat
  ∧ Forall2 (λ doc e, feed_entry st doc = Some e) docs entries
  ∧ entryId <$> entries = docs.*1.
Proof.
  unfold render_posts.
  destruct (mapM (feed_entry st) docs) as [es|] eqn:Hmap; [|done].
  intros [= <- <-]. apply mapM_Some in Hmap. split; [done|]. split; [done|].
  induction Hmap as [|d e docs es Hde Hmap IH]; [done|].
  simpl. apply feed_entry_fields in Hde as (-> & _). by f_equal.
Qed.

(** X19. Every entry of a successful listing is the projection of a stored
    post and of its stored author: the ids, the composed name
    [firstName lastName], the avatar, the text and media, the like state,
    the share counter, the number of comments and the creation time; and
    no post is listed twice. *)
Theorem get_posts_projects (st : Store) (q : option string) (code : nat)
    (entries : list FeedEntry) :
  get_posts st q (Success code entries) →
  code = 200%nat
  ∧ NoDup (entryId <$> entries)
  ∧ ∀ e, e ∈ entries →
         ∃ post author,
           posts st !! entryId e = Some post
           ∧ users st !! userId post = Some author
           ∧ e = mkFeedEntry (entryId e) (userId post)
                   (firstName author +:+ " " +:+ lastName author)
                   (profileImage author) (text post) (image post) (video post)
                   (likes post) (likedBy post) (shares post)
                   (length (comments post)) (createdAt post).
Proof.
  intros (docs & [Hperm Hsorted] & Hr). symmetry in Hr.
  apply render_posts_ids in Hr as (-> & Hall & Hids).
  split; [done|]. split.
  - rewrite Hids, Hperm. apply find_posts_NoDup.
  - intros e He. apply list_elem_of_lookup in He as [i He].
    destruct (Forall2_lookup_r _ _ _ _ _ Hall He) as (doc & Hdoc & Hfe).
    apply feed_entry_stored in Hfe as (author & Hauthor & ->). simpl.
    assert (doc ∈ find_posts st q) as Hin.
    { rewrite <- Hperm. by eapply list_elem_of_lookup_2. }
    apply find_posts_elem in Hin as [Hpost _]. eauto.
Qed.

Lemma get_posts_projects_witness :
  let entries :=
    [mkFeedEntry "p4" "a1" "Ann Lee" "ann.png" "four" "" "" 0 [] 0 0 40;
     mkFeedEntry "p1" "a1" "Ann Lee" "ann.png" "one" "" "" 0 [] 0 0 10;
     mkFeedEntry "p2" "a1" "Ann Lee" "ann.png" "two" "" "" 0 [] 0 0 10] in
  200%nat = 200%nat
  ∧ NoDup (entryId <$> entries)
  ∧ ∀ e, e ∈ entries →
         ∃ post author,
           posts example_store !! entryId e = Some post
           ∧ users example_store !! userId post = Some author
           ∧ e = mkFeedEntry (entryId e) (userId post)
                   (firstName author +:+ " " +:+ lastName author)
                   (profileImage author) (text post) (image post) (video post)
                   (likes post) (likedBy post) (shares post)
                   (length (comments post)) (createdAt post).
Proof.
  intros entries.
  apply (get_posts_projects example_store (Some "a1") 200 entries).
  assert (Success 200 entries = get_posts_run example_store (Some "a1")) as ->
    by (by vm_compute).
  apply get_posts_total.
Defined.

(** X20. The listing without a filter fails, with status 500, exactly when
    some stored post has an author that is not a stored user: one such
    post makes the whole feed fail. *)
Theorem get_posts_fails_iff (st : Store) (r : response (list FeedEntry)) :
  get_posts st None r →
  (r = Failure 500 "Server error."
   ↔ ∃ pid post, posts st !! pid = Some post ∧ users st !! userId post = None)
  ∧ (r = Failure 500 "Server error." ∨ ∃ entries, r = Success 200 entries).
Proof.
  intros (docs & [Hperm Hsorted] & ->). unfold render_posts.
  destruct (mapM (feed_entry st) docs) as [entries|] eqn:Hmap.
  - split; [|eauto]. split; [done|].
    intros (pid & post & Hpost & Hnone). exfalso.
    assert ((pid, post) ∈ docs) as Hin.
    { rewrite Hperm. by apply find_posts_elem. }
    assert (is_Some (mapM (feed_entry st) docs)) as Hsome by eauto.
    apply mapM_is_Some in Hsome.
    rewrite Forall_forall in Hsome. destruct (Hsome _ Hin) as [e He].
    apply feed_entry_fields in He as (_ & _ & _ & _ & _ & _ & [? Hu]).
    simpl in Hu. congruence.
  - split; [|by left]. split; [|done]. intros _.
    apply mapM_None_elem in Hmap as ([pid post] & Hdoc & Hnone).
    apply feed_entry_None in Hnone. rewrite Hperm in Hdoc.
    apply find_posts_elem in Hdoc as [Hpost _]. eauto.
Qed.

Lemma get_posts_fails_iff_witness :
  let st := save_post "p9" (mkPost "zz" "orphan" "" "" 0 [] 0 [] 50) example_store in
  (get_posts_run st None = Failure 500 "Server error."
   ↔ ∃ pid post, posts st !! pid = Some post ∧ users st !! userId post = None)
  ∧ (get_posts_run st None = Failure 500 "Server error."
     ∨ ∃ entries, get_posts_run st None = Success 200 entries).
Proof.
  intros st. apply (get_posts_fails_iff st (get_posts_run st None)).
  apply get_posts_total.
Defined.

(** ** Post creation *)


Global Instance newer_or_equal_trans : Transitive newer_or_equal.
Proof. intros a b c. unfold newer_or_equal. lia. Qed.




(** ** Accounts *)

Lemma find_user_by_email_Some (st : Store) (e : string) (id : string) (u : User) :
  find_user_by_email st e = Some (id, u) → users st !! id = Some u ∧ email u = e.
Proof.
  unfold find_user_by_email. intros Hhead.
  apply head_Some_elem_of in Hhead.
  apply list_elem_of_filter in Hhead as [He Hin]. simpl in He.
  by apply elem_of_map_to_list in Hin.
Qed.

Lemma find_user_by_email_None (st : Store) (e : string) :
  find_user_by_email st e = None
  ↔ ∀ id u, users st !! id = Some u → email u ≠ e.
Proof.
  unfold find_user_by_email. rewrite head_None. split.
  - intros Hnil id u Hu He.
    apply (filter_nil_not_elem_of _ _ (id, u) Hnil); [done|].
    by apply elem_of_map_to_list.
  - intros Hnone. apply elem_of_nil_inv. intros [id u] Hin.
    apply list_elem_of_filter in Hin as [He Hin]. simpl in He.
    apply elem_of_map_to_list in Hin. by apply (Hnone id u).
Qed.

(** With unique emails the lookup by email finds the user that has it. *)
Lemma find_user_by_email_unique (st : Store) (id : string) (u : User) :
  emails_unique st → users st !! id = Some u →
  find_user_by_email st (email u) = Some (id, u).
Proof.
  intros Huniq Hu.
  destruct (find_user_by_email st (email u)) as [[id' u']|] eqn:Hfind.
  - apply find_user_by_email_Some in Hfind as [Hu' He].
    assert (id' = id) as -> by (by apply (Huniq id' id u' u)).
    congruence.
  - exfalso. by apply (proj1 (find_user_by_email_None _ _) Hfind id u).
Qed.

(** X23. A signup with the email of a stored user is refused with status
    400 and stores nothing, whatever the other fields. *)
Theorem signup_rejects_taken_email (st : Store) (newId : string) (now : Z)
    (hashed : string) (f l e p : string) (file : option string)
    (id : string) (u : User) :
  f ≠ "" → l ≠ "" → e ≠ "" → p ≠ "" →
  users st !! id = Some u → email u = e →
  signup st newId now hashed (Some f) (Some l) (Some e) (Some p) file
  = (Failure 400 "User with that email already exists.", st).
Proof.
  intros Hf Hl He Hp Hu Hemail. unfold signup. rewrite !truthy_Some by done.
  destruct (find_user_by_email st e) as [existing|] eqn:Hfind; [done|].
  exfalso. by apply (proj1 (find_user_by_email_None _ _) Hfind id u).
Qed.

Lemma signup_rejects_taken_email_witness :
  signup example_store "c3" 3 "hash" (Some "Bea") (Some "Lee")
         (Some "bob@example.org") (Some "secret") None
  = (Failure 400 "User with that email already exists.", example_store).
Proof.
  by apply (signup_rejects_taken_email example_store "c3" 3 "hash"
              "Bea" "Lee" "bob@example.org" "secret" None "b2"
              (mkUser "Bob" "Ray" "bob@example.org" "hash" "" "" "" "" [] [] 2)).
Defined.

(** What a signup does to the users: nothing, or one new user without
    followers and followings whose email no stored user has. *)
Lemma signup_cases (st : Store) (newId : string) (now : Z) (hashed : string)
    (f l e p file : option string) :
  (signup st newId now hashed f l e p file).2 = st
  ∨ ∃ u, (signup st newId now hashed f l e p file).2
         = mkStore (<[newId := u]> (users st)) (posts st)
         ∧ followers u = [] ∧ following u = []
         ∧ (signup st newId now hashed f l e p file).1
           = Success 201 ("Sign up successful.", newId)
         ∧ e = Some (email u) ∧ password u = hashed
         ∧ ∀ id v, users st !! id = Some v → email v ≠ email u.
Proof.
  unfold signup.
  destruct (truthy f); [|left; by destruct (truthy l), (truthy e), (truthy p)].
  destruct (truthy l); [|left; by destruct (truthy e), (truthy p)].
  destruct (truthy e) as [e'|] eqn:He; [|left; by destruct (truthy p)].
  destruct (truthy p); [|by left].
  destruct (find_user_by_email st e') eqn:Hfind; [by left|].
  right. eexists. split; [reflexivity|]. simpl.
  apply truthy_inv in He as [-> _]. repeat split; try done.
  by apply find_user_by_email_None.
Qed.

(** X24. A signup with a fresh, non-empty id keeps the emails of the stored
    users unique and keeps referential integrity, whatever the fields of
    the request. *)
Theorem signup_keeps_invariants (st : Store) (newId : string) (now : Z)
    (hashed : string) (f l e p file : option string) :
  newId ≠ "" → users st !! newId = None →
  emails_unique st → references_resolve st →
  emails_unique (signup st newId now hashed f l e p file).2
  ∧ references_resolve (signup st newId now hashed f l e p file).2.
Proof.
  intros Hid Hfresh Huniq [Hempty Href].
  destruct (signup_cases st newId now hashed f l e p file)
    as [->|(u & -> & Hfs & Hfg & _ & _ & _ & Hnew)]; [done|].
  split.
  - intros i j v w. simpl. rewrite !lookup_insert.
    repeat case_decide; simplify_eq; intros Hv Hw Heq; simplify_eq; try done.
    + exfalso. by apply (Hnew j w).
    + exfalso. by apply (Hnew i v).
    + by apply (Huniq i j v w).
  - split; simpl.
    + by rewrite lookup_insert_ne.
    + intros id v x. rewrite lookup_insert. case_decide; simplify_eq.
      * intros [= <-]. rewrite Hfs, Hfg. intros [Hx|Hx]; by apply elem_of_nil in Hx.
      * intros Hv Hx. rewrite lookup_insert. case_decide; [eauto|].
        by apply (Href id v x).
Qed.

Lemma example_store_emails_unique : emails_unique example_store.
Proof.
  intros i j u v Hu Hv.
  assert ((i, u) ∈ map_to_list (users example_store)) as Hi
    by (by apply elem_of_map_to_list).
  assert ((j, v) ∈ map_to_list (users example_store)) as Hj
    by (by apply elem_of_map_to_list).
  vm_compute in Hi. vm_compute in Hj. clear Hu Hv.
  repeat (apply elem_of_cons in Hi as [[= -> ->]|Hi]);
    repeat (apply elem_of_cons in Hj as [[= -> ->]|Hj]);
    try (by apply elem_of_nil in Hi); try (by apply elem_of_nil in Hj);
    done.
Qed.

Lemma signup_keeps_invariants_witness :
  emails_unique
    (signup example_store "c3" 3 "hash" (Some "Cyd") (Some "Poe")
            (Some "cyd@example.org") (Some "secret") None).2
  ∧ references_resolve
      (signup example_store "c3" 3 "hash" (Some "Cyd") (Some "Poe")
              (Some "cyd@example.org") (Some "secret") None).2.
Proof.
  apply (signup_keeps_invariants example_store "c3" 3 "hash"); try done.
  - apply example_store_emails_unique.
  - apply example_store_references.
Defined.

(** X25. After a successful signup, a login with the same email and the
    same password is answered with success and the id the signup gave,
    provided [bcrypt.compare] accepts the password against the stored
    hash. *)
Theorem signup_then_login (compare : string → string → bool) (st st' : Store)
    (newId : string) (now : Z) (hashed : string)
    (f l e : option string) (pwd : string) (file : option string)
    (reply : string * string) :
  signup st newId now hashed f l e (Some pwd) file = (Success 201 reply, st') →
  compare pwd hashed = true →
  reply.2 = newId
  ∧ login compare st' e (Some pwd) = Success 200 ("Login successful.", newId).
Proof.
  intros Hsignup Hcompare. unfold signup in Hsignup.
  destruct (truthy f) as [first|];
    [|by destruct (truthy l), (truthy e), (truthy (Some pwd))].
  destruct (truthy l) as [last|];
    [|by destruct (truthy e), (truthy (Some pwd))].
  destruct (truthy e) as [e'|] eqn:He; [|by destruct (truthy (Some pwd))].
  destruct (truthy (Some pwd)) as [pwd'|] eqn:Hp; [|done].
  destruct (find_user_by_email st e') eqn:Hfind; [done|].
  injection Hsignup as <- <-. split; [done|].
  unfold login. rewrite He, Hp.
  set (newUser := mkUser first last e' hashed (default "" file) "" "" "" [] [] now).
  set (st' := mkStore (<[newId := newUser]> (users st)) (posts st)).
  destruct (find_user_by_email st' e') as [[id u]|] eqn:Hfind'.
  - apply find_user_by_email_Some in Hfind' as [Hu Hemail].
    simpl in Hu. rewrite lookup_insert in Hu. case_decide as Hid.
    + injection Hu as <-. subst id. simpl.
      apply truthy_inv in Hp as [[= <-] _]. by rewrite Hcompare.
    + exfalso. by apply (proj1 (find_user_by_email_None _ _) Hfind id u).
  - exfalso.
    apply (proj1 (find_user_by_email_None _ _) Hfind' newId newUser); [|done].
    simpl. by rewrite lookup_insert_eq.
Qed.

Lemma signup_then_login_witness :
  let compare := λ pwd hash, bool_decide (hash = "#" +:+ pwd) in
  let st' := (signup example_store "c3" 3 "#secret" (Some "Cyd") (Some "Poe")
                (Some "cyd@example.org") (Some "secret") None).2 in
  ("Sign up successful.", "c3").2 = "c3"
  ∧ login compare st' (Some "cyd@example.org") (Some "secret")
    = Success 200 ("Login successful.", "c3").
Proof.
  intros compare st'.
  apply (signup_then_login compare example_store st' "c3" 3 "#secret"
           (Some "Cyd") (Some "Poe") (Some "cyd@example.org") "secret" None
           ("Sign up successful.", "c3")); by vm_compute.
Defined.

(** X26. On a store with unique emails, a login with a non-empty email and
    password is answered with success and an id exactly when that id is the
    stored user with this email and [bcrypt.compare] accepts the password
    against its stored hash. *)
Theorem login_succeeds_iff (compare : string → string → bool) (st : Store)
    (e pwd id : string) :
  emails_unique st →
  e ≠ "" → pwd ≠ "" →
  login compare st (Some e) (Some pwd) = Success 200 ("Login successful.", id)
  ↔ ∃ u, users st !! id = Some u ∧ email u = e
         ∧ compare pwd (password u) = true.
Proof.
  intros Huniq He Hp. unfold login. rewrite !truthy_Some by done. split.
  - destruct (find_user_by_email st e) as [[id' u]|] eqn:Hfind; [|done].
    destruct (compare pwd (password u)) eqn:Hc; [|done].
    intros [= <-]. apply find_user_by_email_Some in Hfind as [Hu Hemail]. eauto.
  - intros (u & Hu & <- & Hc).
    rewrite (find_user_by_email_unique st id u) by done. by rewrite Hc.
Qed.

Lemma login_succeeds_iff_witness :
  let compare := λ pwd hash, bool_decide (hash = "#" +:+ pwd) in
  login compare example_store (Some "bob@example.org") (Some "secret")
  = Success 200 ("Login successful.", "b2")
  ↔ ∃ u, users example_store !! "b2" = Some u ∧ email u = "bob@example.org"
         ∧ compare "secret" (password u) = true.
Proof.
  intros compare.
  apply (login_succeeds_iff compare example_store "bob@example.org" "secret" "b2");
    [|done|done].
  apply example_store_emails_unique.
Defined.

(** * Properties of the handlers on request strings *)

(** ** On ids in stored form the two descriptions agree *)

Lemma stored_form_truthy (cast : string → option string)
    (field : option string) (s : string) :
  stored_form cast field → truthy field = Some s → cast s = Some s.
Proof. intros Hf [-> _]%truthy_inv. by apply Hf. Qed.

Lemma follow_request_stored_form (cast : string → option string) (st : Store)
    (a b : option string) :
  stored_form cast a → stored_form cast b →
  follow_request cast st a b = follow st a b.
Proof.
  intros Ha Hb. unfold follow_request, follow.
  destruct (truthy a) as [A|] eqn:HA; [|done].
  destruct (truthy b) as [B|] eqn:HB; [|done].
  rewrite (stored_form_truthy cast a A Ha HA).
  by rewrite (stored_form_truthy cast b B Hb HB).
Qed.

Lemma unfollow_request_stored_form (cast : string → option string) (st : Store)
    (a b : option string) :
  stored_form cast a → stored_form cast b →
  a ≠ b ∨ no_self_follow st →
  unfollow_request cast st a b = unfollow st a b.
Proof.
  intros Ha Hb Hsafe. unfold unfollow_request, unfollow.
  destruct (truthy a) as [A|] eqn:HA; [|done].
  destruct (truthy b) as [B|] eqn:HB; [|done].
  rewrite (stored_form_truthy cast a A Ha HA).
  rewrite (stored_form_truthy cast b B Hb HB).
  destruct (users st !! A) as [me|] eqn:Hme; [|done].
  destruct (users st !! B) as [them|] eqn:Hthem; [|done].
  rewrite decide_False; [done|]. intros (-> & Hfg & Hfs).
  apply truthy_inv in HA as [-> _]. apply truthy_inv in HB as [-> _].
  destruct Hsafe as [Hne|Hno]; [done|].
  destruct (Hno B) as [Hself _]. apply Hfg.
  unfold following_of in Hself. rewrite Hme in Hself.
  by apply filter_absent.
Qed.

Lemma like_request_stored_form (cast : string → option string) (st : Store)
    (a b : option string) :
  stored_form cast a → stored_form cast b →
  like_request cast st a b = toggle_like st a b.
Proof.
  intros Ha Hb. unfold like_request, toggle_like, toggle.
  destruct (truthy a) as [P|] eqn:HP; [|done].
  destruct (truthy b) as [U|] eqn:HU; [|done].
  rewrite (stored_form_truthy cast a P Ha HP).
  rewrite (stored_form_truthy cast b U Hb HU).
  destruct (posts st !! P) as [post|]; [|done].
  by destruct (existsb _ _).
Qed.

Lemma posts_of_find_posts (st : Store) (key : string) :
  key ≠ "" → posts_of st key = find_posts st (Some key).
Proof.
  intros Hkey. unfold posts_of, find_posts, selected.
  rewrite truthy_Some by done. apply list_filter_iff.
  intros [pid post]. simpl. by rewrite bool_decide_spec.
Qed.

Lemma posts_request_stored_form (cast : string → option string) (st : Store)
    (q : option string) (r : response (list FeedEntry)) :
  stored_form cast q →
  posts_request cast st q r ↔ get_posts st q r.
Proof.
  intros Hq. unfold posts_request.
  destruct (truthy q) as [X|] eqn:HX.
  - rewrite (stored_form_truthy cast q X Hq HX).
    apply truthy_inv in HX as [-> HX]. unfold get_posts.
    by rewrite posts_of_find_posts.
  - destruct q as [x|]; [|done]. simpl in HX.
    case_decide; [subst x|done]. done.
Qed.

Lemma posts_of_elem (st : Store) (key : string) (doc : string * Post) :
  doc ∈ posts_of st key ↔ posts st !! doc.1 = Some doc.2 ∧ userId doc.2 = key.
Proof.
  unfold posts_of. rewrite list_elem_of_filter. destruct doc as [k p]. simpl.
  rewrite elem_of_map_to_list. tauto.
Qed.

Lemma posts_of_NoDup (st : Store) (key : string) : NoDup (posts_of st key).*1.
Proof.
  unfold posts_of.
  apply (sublist_NoDup _ (map_to_list (posts st)).*1);
    [apply NoDup_fst_map_to_list|].
  apply fmap_sublist, sublist_filter.
Qed.

(** The handler always has a response: the one of [posts_request_run]. *)
Lemma posts_request_total (cast : string → option string) (st : Store)
    (q : option string) :
  posts_request cast st q (posts_request_run cast st q).
Proof.
  unfold posts_request, posts_request_run.
  destruct (truthy q) as [X|]; [|apply get_posts_total].
  destruct (cast X) as [key|]; [|done].
  eexists. split; [apply merge_sort_newest_first|done].
Qed.

(** ** The cast of the example ids *)

Lemma object_id_examples :
  object_id ann_id = Some ann_id ∧ object_id bob_id = Some bob_id
  ∧ object_id cyd_id = Some cyd_id
  ∧ object_id post1_id = Some post1_id ∧ object_id post2_id = Some post2_id
  ∧ object_id "AAAAAAAAAAAAAAAAAAAAAAA1" = Some ann_id
  ∧ object_id "BBBBBBBBBBBBBBBBBBBBBBB2" = Some bob_id
  ∧ object_id "ghost" = None.
Proof. by vm_compute. Qed.

(** ** The self-follow guard and ids in another letter case *)

(** C6. The guard compares the two request strings, and the lookups cast
    them: a follow request that names one stored user twice, the second
    time in upper case, passes the guard, is answered 200, and puts the
    user in its own [following] and [followers]. *)
Theorem follow_self_in_other_case :
  ∃ st', follow_request object_id hex_store
           (Some ann_id) (Some "AAAAAAAAAAAAAAAAAAAAAAA1")
         = (Success 200 "Followed successfully.", st')
         ∧ following_of st' ann_id = [ann_id]
         ∧ followers_of st' ann_id = [ann_id].
Proof. eexists. split; [by vm_compute|]. by vm_compute. Qed.

(** With one string for both fields the request is refused with 400 and
    the store is left as it was. *)
Lemma follow_request_same_string (cast : string → option string) (st : Store)
    (A : string) :
  status (follow_request cast st (Some A) (Some A)).1 = 400%nat
  ∧ (follow_request cast st (Some A) (Some A)).2 = st.
Proof.
  unfold follow_request. destruct (truthy (Some A)) as [a|] eqn:Ha; [|done].
  by rewrite decide_True.
Qed.

(** ** Likes on request strings *)

(** C3. The membership test compares the request string with the stored
    ids and [push] stores the cast: two like requests with the id of one
    user in upper case are both counted, and the counter of a post that
    had no like becomes 2 while [likedBy] holds one user, twice. *)
Theorem like_count_diverges :
  let upper := Some "AAAAAAAAAAAAAAAAAAAAAAA1" in
  let st' := like_request_all object_id hex_store
               [(Some post1_id, upper); (Some post1_id, upper)] in
  ∃ post post',
    posts hex_store !! post1_id = Some post ∧ like_consistent post
    ∧ posts st' !! post1_id = Some post'
    ∧ likes post' = 2 ∧ liked_by_cardinal post' = 1.
Proof. eexists _, _. repeat split; by vm_compute. Qed.

(** C9. On the same two requests [likedBy], duplicate-free before, holds
    the stored id of the user twice. *)
Theorem liked_by_gets_duplicate :
  let upper := Some "AAAAAAAAAAAAAAAAAAAAAAA1" in
  let st' := like_request_all object_id hex_store
               [(Some post1_id, upper); (Some post1_id, upper)] in
  ∃ post post',
    posts hex_store !! post1_id = Some post ∧ NoDup (likedBy post)
    ∧ posts st' !! post1_id = Some post'
    ∧ likedBy post' = [ann_id; ann_id] ∧ ¬ NoDup (likedBy post').
Proof.
  eexists _, _. split; [by vm_compute|]. split; [apply NoDup_nil_2|].
  split; [by vm_compute|]. split; [done|]. simpl.
  intros [Hnot _]%NoDup_cons. apply Hnot. by left.
Qed.

Lemma like_request_stored (cast : string → option string) (st : Store)
    (pid uid : string) (post : Post) :
  pid ≠ "" → uid ≠ "" → cast pid = Some pid → cast uid = Some uid →
  posts st !! pid = Some post →
  like_request cast st (Some pid) (Some uid)
  = (Success 200 (mkLikeReply "Post like updated."
                    (likes (toggle uid post)) (likedBy (toggle uid post))),
     save_post pid (toggle uid post) st).
Proof.
  intros Hp Hu Hcp Hcu Hpost.
  rewrite like_request_stored_form; [by apply toggle_like_stored| |];
    by intros s [= <-].
Qed.

Lemma toggle_toggle_liked (u : string) (p : Post) :
  u ∈ likedBy p →
  likedBy (toggle u (toggle u p)) = filter (λ id, id ≠ u) (likedBy p) ++ [u].
Proof.
  intros Hu. rewrite (toggle_liked u p) by done.
  by rewrite toggle_not_liked by (simpl; apply not_liked_after_filter).
Qed.

(** C2, as the code has it. For a stored post whose counter is the
    cardinality of its [likedBy] set and a user id in stored form, two
    like requests in a row both succeed, and the second answers with, and
    leaves stored, [likes] at its first value and [likedBy] with the same
    set of users: the same sequence when the user had not liked the post,
    and otherwise the sequence without the user followed by the user. *)
Theorem like_request_twice_restores (cast : string → option string)
    (st : Store) (pid uid : string) (post : Post) :
  pid ≠ "" → uid ≠ "" → cast pid = Some pid → cast uid = Some uid →
  posts st !! pid = Some post →
  like_consistent post →
  ∃ reply1 st1 post2,
    like_request cast st (Some pid) (Some uid) = (Success 200 reply1, st1)
    ∧ like_request cast st1 (Some pid) (Some uid)
      = (Success 200 (mkLikeReply "Post like updated." (likes post2) (likedBy post2)),
         save_post pid post2 st)
    ∧ likes post2 = likes post
    ∧ (list_to_set (likedBy post2) : gset string) = list_to_set (likedBy post)
    ∧ (uid ∉ likedBy post → likedBy post2 = likedBy post)
    ∧ (uid ∈ likedBy post →
       likedBy post2 = filter (λ id, id ≠ uid) (likedBy post) ++ [uid]).
Proof.
  intros Hp Hu Hcp Hcu Hpost Hc.
  rewrite (like_request_stored cast st pid uid post) by done.
  eexists _, _, (toggle uid (toggle uid post)). split; [reflexivity|].
  rewrite (like_request_stored cast _ pid uid (toggle uid post)); try done;
    [|simpl; by rewrite lookup_insert_eq].
  rewrite save_post_twice. split; [done|].
  destruct (toggle_toggle uid post Hc) as (Hl & Hs & _ & Hsame).
  repeat split; try done. apply toggle_toggle_liked.
Qed.

Lemma like_request_twice_restores_witness :
  let post := mkPost ann_id "hello" "" "" 2 [ann_id; bob_id] 0 [] 10 in
  let st := mkStore ∅ (<[post1_id := post]> ∅) in
  ∃ reply1 st1 post2,
    like_request object_id st (Some post1_id) (Some ann_id)
    = (Success 200 reply1, st1)
    ∧ like_request object_id st1 (Some post1_id) (Some ann_id)
      = (Success 200 (mkLikeReply "Post like updated." (likes post2) (likedBy post2)),
         save_post post1_id post2 st)
    ∧ likes post2 = likes post
    ∧ (list_to_set (likedBy post2) : gset string) = list_to_set (likedBy post)
    ∧ (ann_id ∉ likedBy post → likedBy post2 = likedBy post)
    ∧ (ann_id ∈ likedBy post →
       likedBy post2 = filter (λ id, id ≠ ann_id) (likedBy post) ++ [ann_id]).
Proof.
  intros post st.
  apply (like_request_twice_restores object_id st post1_id ann_id post);
    by vm_compute.
Defined.

(** C2, as stated, fails. With the counter at 0 and the user in [likedBy],
    two like requests leave the counter at 1; and from the state two likes
    produce, two like requests by the first user leave [likedBy] in
    another order. *)
Lemma like_request_twice_not_identity :
  (let st := mkStore ∅ (<[post1_id := mkPost ann_id "hello" "" "" 0 [ann_id] 0 [] 10]> ∅) in
   let st2 := (like_request object_id
                 (like_request object_id st (Some post1_id) (Some ann_id)).2
                 (Some post1_id) (Some ann_id)).2 in
   (likes <$> posts st !! post1_id) = Some 0
   ∧ (likes <$> posts st2 !! post1_id) = Some 1)
  ∧ (let st := mkStore ∅ (<[post1_id := mkPost ann_id "hello" "" "" 2 [ann_id; bob_id] 0 [] 10]> ∅) in
     let st2 := (like_request object_id
                   (like_request object_id st (Some post1_id) (Some ann_id)).2
                   (Some post1_id) (Some ann_id)).2 in
     (likedBy <$> posts st !! post1_id) = Some [ann_id; bob_id]
     ∧ (likedBy <$> posts st2 !! post1_id) = Some [bob_id; ann_id]).
Proof. split; split; by vm_compute. Qed.

(** C10. On a stored post, a like request either answers 200 with a
    counter that is not negative, which is then the stored counter, or
    answers 500 and stores nothing, which happens only for a user id that
    is not in [likedBy] and cannot be cast.  This holds for a stored
    counter that is not negative, and also whenever the user is in
    [likedBy], whatever the stored counter. *)
Theorem like_request_count_nonnegative (cast : string → option string)
    (st : Store) (pid pkey uid : string) (post : Post) :
  pid ≠ "" → uid ≠ "" → cast pid = Some pkey →
  posts st !! pkey = Some post →
  0 ≤ likes post ∨ uid ∈ likedBy post →
  match like_request cast st (Some pid) (Some uid) with
  | (Success code reply, st') =>
      code = 200%nat ∧ 0 ≤ replyLikes reply
      ∧ (likes <$> posts st' !! pkey) = Some (replyLikes reply)
  | (Failure code _, st') =>
      code = 500%nat ∧ cast uid = None ∧ (uid ∉ likedBy post) ∧ st' = st
  end.
Proof.
  intros Hp Hu Hcp Hpost Hcases. unfold like_request.
  rewrite !truthy_Some by done. rewrite Hcp, Hpost.
  destruct (existsb _ _) eqn:Hliked.
  - simpl. rewrite lookup_insert_eq. split; [done|]. split; [lia|done].
  - assert (uid ∉ likedBy post) as Hnot.
    { intros Hin. apply already_liked_iff in Hin. congruence. }
    destruct (cast uid) as [ukey|]; [|done].
    simpl. rewrite lookup_insert_eq. split; [done|]. split; [|done].
    destruct Hcases as [Hpos|Hin]; [lia|done].
Qed.

Lemma like_request_count_nonnegative_witness :
  let post := mkPost ann_id "hello" "" "" 0 [ann_id] 0 [] 10 in
  let st := mkStore ∅ (<[post1_id := post]> ∅) in
  match like_request object_id st (Some post1_id) (Some ann_id) with
  | (Success code reply, st') =>
      code = 200%nat ∧ 0 ≤ replyLikes reply
      ∧ (likes <$> posts st' !! post1_id) = Some (replyLikes reply)
  | (Failure code _, st') =>
      code = 500%nat ∧ object_id ann_id = None ∧ (ann_id ∉ likedBy post) ∧ st' = st
  end.
Proof.
  intros post st.
  apply (like_request_count_nonnegative object_id st post1_id post1_id ann_id post);
    try done.
  right. simpl. by apply list_elem_of_singleton.
Defined.

(** ** Comments on request strings *)

Lemma comment_request_cast (cast : string → option string) (st : Store)
    (now : Z) (pid pkey uid ukey txt : string) (post : Post) :
  pid ≠ "" → uid ≠ "" → txt ≠ "" →
  cast pid = Some pkey → cast uid = Some ukey →
  posts st !! pkey = Some post →
  comment_request cast st now (Some pid) (Some uid) (Some txt)
  = let post' := with_comments (comments post ++ [mkComment ukey txt now]) post in
    let st' := save_post pkey post' st in
    (Success 200 ("Comment added.", comment_view st' <$> comments post'), st').
Proof.
  intros Hp Hu Ht Hcp Hcu Hpost. unfold comment_request.
  rewrite !truthy_Some by done. by rewrite Hcp, Hpost, Hcu.
Qed.

(** C4. For a stored post, a non-empty text and an author id that is cast
    to an [ObjectId], the comment request succeeds; the stored comment
    sequence is the prior sequence followed by the one new comment (the
    author in stored form, the text, the current time), and the response
    lists that sequence. *)
Theorem comment_request_appends (cast : string → option string) (st : Store)
    (now : Z) (pid pkey uid ukey txt : string) (post : Post) :
  pid ≠ "" → uid ≠ "" → txt ≠ "" →
  cast pid = Some pkey → cast uid = Some ukey →
  posts st !! pkey = Some post →
  ∃ views st',
    comment_request cast st now (Some pid) (Some uid) (Some txt)
    = (Success 200 ("Comment added.", views), st')
    ∧ comments_of st' pkey = comments post ++ [mkComment ukey txt now]
    ∧ views = comment_view st' <$> (comments post ++ [mkComment ukey txt now])
    ∧ length views = S (length (comments post)).
Proof.
  intros Hp Hu Ht Hcp Hcu Hpost.
  rewrite (comment_request_cast cast st now pid pkey uid ukey txt post) by done.
  eexists _, _. split; [reflexivity|]. simpl.
  unfold comments_of, save_post. simpl. rewrite lookup_insert_eq. simpl.
  split; [done|]. split; [done|].
  rewrite length_fmap, length_app. simpl. lia.
Qed.

Lemma comment_request_appends_witness :
  let post := mkPost ann_id "hello" "" "" 0 [] 0 [mkComment ann_id "first" 11] 10 in
  let st := mkStore ∅ (<[post1_id := post]> ∅) in
  ∃ views st',
    comment_request object_id st 12 (Some post1_id)
      (Some "BBBBBBBBBBBBBBBBBBBBBBB2") (Some "second")
    = (Success 200 ("Comment added.", views), st')
    ∧ comments_of st' post1_id = comments post ++ [mkComment bob_id "second" 12]
    ∧ views = comment_view st' <$> (comments post ++ [mkComment bob_id "second" 12])
    ∧ length views = S (length (comments post)).
Proof.
  intros post st.
  by apply (comment_request_appends object_id st 12 post1_id post1_id
              "BBBBBBBBBBBBBBBBBBBBBBB2" bob_id "second" post).
Defined.

(** A comment request with an author id that cannot be cast is answered
    500 and stores nothing. *)
Lemma comment_request_bad_author (cast : string → option string) (st : Store)
    (now : Z) (pid uid txt : option string) (u : string) :
  truthy uid = Some u → cast u = None →
  status (comment_request cast st now pid uid txt).1 ≠ 200%nat
  ∧ (comment_request cast st now pid uid txt).2 = st.
Proof.
  intros Hu Hcu. unfold comment_request. rewrite Hu.
  destruct (truthy pid) as [p|]; [|done].
  destruct (truthy txt); [|done].
  destruct (cast p) as [pkey|]; [|done].
  destruct (posts st !! pkey); [|done]. by rewrite Hcu.
Qed.

(** ** The listing on a request string *)

(** C5, as the code has it. With the filter of an author id that is cast
    to an [ObjectId], the listing fails (500) exactly when that author has
    a stored post and is not a stored user; otherwise it succeeds, holds
    exactly the stored posts of that author, each once, every entry has
    that author, and no entry comes before a newer one. *)
Theorem posts_request_by_author (cast : string → option string) (st : Store)
    (X key : string) (r : response (list FeedEntry)) :
  X ≠ "" → cast X = Some key →
  posts_request cast st (Some X) r →
  (r = Failure 500 "Server error."
   ↔ users st !! key = None
     ∧ ∃ pid post, posts st !! pid = Some post ∧ userId post = key)
  ∧ (r = Failure 500 "Server error."
     ∨ ∃ entries,
         r = Success 200 entries
         ∧ Forall (λ e, entryUserId e = key) entries
         ∧ feed_descending entries
         ∧ NoDup (entryId <$> entries)
         ∧ ∀ pid, pid ∈ entryId <$> entries
                  ↔ ∃ post, posts st !! pid = Some post ∧ userId post = key).
Proof.
  intros HX Hcast. unfold posts_request. rewrite truthy_Some by done.
  rewrite Hcast. intros (docs & [Hperm Hsorted] & ->).
  unfold render_posts.
  destruct (mapM (feed_entry st) docs) as [entries|] eqn:Hmap.
  - assert (Hrender : render_posts st docs = Success 200 entries)
      by (unfold render_posts; by rewrite Hmap).
    apply render_posts_ids in Hrender as (_ & Hall & Hids).
    split.
    + split; [done|]. intros (Hnone & pid & post & Hpost & Hauthor). exfalso.
      assert ((pid, post) ∈ docs) as Hin.
      { rewrite Hperm. by apply posts_of_elem. }
      apply list_elem_of_lookup in Hin as [i Hi].
      destruct (Forall2_lookup_l _ _ _ _ _ Hall Hi) as (e & _ & He).
      apply feed_entry_stored in He as (author & Hau & _).
      simpl in Hau. congruence.
    + right. exists entries. split; [done|]. split; [|split; [|split]].
      * apply Forall_forall. intros e He.
        apply list_elem_of_lookup in He as [i He].
        destruct (Forall2_lookup_r _ _ _ _ _ Hall He) as (doc & Hdoc & Hfe).
        apply feed_entry_fields in Hfe as (_ & -> & _).
        assert (doc ∈ posts_of st key) as Hin.
        { rewrite <- Hperm. by eapply list_elem_of_lookup_2. }
        by apply posts_of_elem in Hin as [_ ?].
      * unfold feed_descending.
        apply (Sorted_transfer (λ d e, feed_entry st d = Some e)
                 newer_or_equal _ docs entries); [|done|done].
        intros a a' b b' Ha Ha' Hle.
        apply feed_entry_fields in Ha as (_ & _ & -> & _).
        apply feed_entry_fields in Ha' as (_ & _ & -> & _). done.
      * rewrite Hids, Hperm. apply posts_of_NoDup.
      * intros pid. rewrite Hids, Hperm, list_elem_of_fmap. split.
        -- intros ([pid' post] & -> & Hin). apply posts_of_elem in Hin. eauto.
        -- intros (post & Hpost & Hauthor). exists (pid, post).
           split; [done|]. by apply posts_of_elem.
  - split; [|by left]. split; [|done]. intros _.
    apply mapM_None_elem in Hmap as ([pid post] & Hdoc & Hnone).
    apply feed_entry_None in Hnone. rewrite Hperm in Hdoc.
    apply posts_of_elem in Hdoc as [Hpost Hauthor]. simpl in *.
    rewrite Hauthor in Hnone. eauto.
Qed.

Lemma posts_request_by_author_witness :
  let r := posts_request_run object_id hex_store (Some "AAAAAAAAAAAAAAAAAAAAAAA1") in
  (r = Failure 500 "Server error."
   ↔ users hex_store !! ann_id = None
     ∧ ∃ pid post, posts hex_store !! pid = Some post ∧ userId post = ann_id)
  ∧ (r = Failure 500 "Server error."
     ∨ ∃ entries,
         r = Success 200 entries
         ∧ Forall (λ e, entryUserId e = ann_id) entries
         ∧ feed_descending entries
         ∧ NoDup (entryId <$> entries)
         ∧ ∀ pid, pid ∈ entryId <$> entries
                  ↔ ∃ post, posts hex_store !! pid = Some post
                            ∧ userId post = ann_id).
Proof.
  intros r.
  apply (posts_request_by_author object_id hex_store
           "AAAAAAAAAAAAAAAAAAAAAAA1" ann_id r); [done|by vm_compute|].
  apply posts_request_total.
Defined.

(** C5, as stated, fails in its last part. The sort is given the creation
    time and no second key: the two posts of one author created at the
    same time may be listed in either order. *)
Lemma posts_request_tie_order_not_fixed :
  ∃ es1 es2,
    posts_request object_id hex_store (Some ann_id) (Success 200 es1)
    ∧ posts_request object_id hex_store (Some ann_id) (Success 200 es2)
    ∧ entryId <$> es1 = [post1_id; post2_id]
    ∧ entryCreatedAt <$> es1 = [10; 10]
    ∧ entryId <$> es2 = [post2_id; post1_id]
    ∧ entryCreatedAt <$> es2 = [10; 10].
Proof.
  assert (Hcast : object_id ann_id = Some ann_id) by (by vm_compute).
  assert (posts_of hex_store ann_id
          ≡ₚ [(post1_id, mkPost ann_id "one" "" "" 0 [] 0 [] 10);
              (post2_id, mkPost ann_id "two" "" "" 0 [] 0 [] 10)]) as Hfound.
  { assert (posts_of hex_store ann_id
            = [(post1_id, mkPost ann_id "one" "" "" 0 [] 0 [] 10);
               (post2_id, mkPost ann_id "two" "" "" 0 [] 0 [] 10)]
            ∨ posts_of hex_store ann_id
              = [(post2_id, mkPost ann_id "two" "" "" 0 [] 0 [] 10);
                 (post1_id, mkPost ann_id "one" "" "" 0 [] 0 [] 10)]) as [->| ->].
    { vm_compute. by left. }
    - done.
    - apply perm_swap. }
  unfold posts_request. rewrite truthy_Some by done. rewrite Hcast.
  eexists _, _. split; [|split].
  - exists [(post1_id, mkPost ann_id "one" "" "" 0 [] 0 [] 10);
            (post2_id, mkPost ann_id "two" "" "" 0 [] 0 [] 10)].
    split; [split|by vm_compute].
    + by rewrite Hfound.
    + repeat constructor; unfold newer_or_equal; simpl; lia.
  - exists [(post2_id, mkPost ann_id "two" "" "" 0 [] 0 [] 10);
            (post1_id, mkPost ann_id "one" "" "" 0 [] 0 [] 10)].
    split; [split|by vm_compute].
    + rewrite Hfound. apply perm_swap.
    + repeat constructor; unfold newer_or_equal; simpl; lia.
  - done.
Qed.

(** ** The relationship graph on request strings *)

Lemma graph_request_step_stored_form (cast : string → option string)
    (st : Store) (req : GraphRequest) :
  stored_form_request cast req → no_self_follow st →
  graph_request_step cast st req = graph_step st req.
Proof.
  intros Hreq Hno. destruct req as [a b|a b]; destruct Hreq as [Ha Hb]; simpl.
  - by rewrite follow_request_stored_form.
  - rewrite unfollow_request_stored_form; [done|done|done|by right].
Qed.



(** X2. Every sequence of follow and unfollow requests whose ids are in
    stored form, on a store where no user is in its own arrays, keeps the
    relationship arrays free of duplicates. *)
Theorem graph_request_run_duplicate_free (cast : string → option string)
    (st : Store) (reqs : list GraphRequest) :
  Forall (stored_form_request cast) reqs →
  no_self_follow st → relations_duplicate_free st →
  relations_duplicate_free (graph_request_run cast st reqs).
Proof.
  intros Hreqs. revert st.
  induction Hreqs as [|req reqs Hreq Hreqs IH]; intros st Hno Hnd; [done|].
  unfold graph_request_run in *. simpl.
  rewrite graph_request_step_stored_form by done.
  destruct req as [a b|a b]; simpl; apply IH;
    auto using follow_keeps_duplicate_free, follow_keeps_no_self,
               unfollow_keeps_duplicate_free, unfollow_keeps_no_self.
Qed.

Lemma graph_request_run_duplicate_free_witness :
  relations_duplicate_free
    (graph_request_run object_id (mkStore hex_users ∅)
       [FollowRequest (Some ann_id) (Some bob_id);
        FollowRequest (Some ann_id) (Some bob_id)]).
Proof.
  assert (∀ a, following_of (mkStore hex_users ∅) a = []
               ∧ followers_of (mkStore hex_users ∅) a = []) as Hnone.
  { intros a. unfold following_of, followers_of, hex_users. simpl.
    destruct (decide (a = ann_id)) as [->|Ha]; [done|].
    destruct (decide (a = bob_id)) as [->|Hb]; [done|].
    by rewrite !lookup_insert_ne, lookup_empty by done. }
  apply (graph_request_run_duplicate_free object_id (mkStore hex_users ∅)).
  - repeat constructor; intros s [= <-]; by vm_compute.
  - intros a. destruct (Hnone a) as [-> ->]. split; apply not_elem_of_nil.
  - intros a. destruct (Hnone a) as [-> ->]. split; apply NoDup_nil_2.
Defined.

(** X4. A follow request whose ids are in stored form, served twice in a
    row, leaves the store the first one left: the second changes
    nothing. *)
Theorem follow_request_idempotent (cast : string → option string) (st : Store)
    (a b : option string) :
  stored_form cast a → stored_form cast b →
  (follow_request cast (follow_request cast st a b).2 a b).2
  = (follow_request cast st a b).2.
Proof.
  intros Ha Hb. rewrite !follow_request_stored_form by done.
  destruct (follow_cases st a b)
    as [H|(A & B & -> & -> & Hne & HA & HB & HsA & HsB)].
  - by rewrite !H.
  - apply (follow_connected_noop _ _ _ A B); [done|done| |].
    + rewrite follow_following_of by done. rewrite decide_True by done.
      case_decide; [done|]. apply elem_of_app. right.
      by apply list_elem_of_singleton.
    + rewrite follow_followers_of by done. rewrite decide_True by done.
      case_decide; [done|]. apply elem_of_app. right.
      by apply list_elem_of_singleton.
Qed.

Lemma follow_request_idempotent_witness :
  let st := mkStore hex_users ∅ in
  (follow_request object_id
     (follow_request object_id st (Some ann_id) (Some bob_id)).2
     (Some ann_id) (Some bob_id)).2
  = (follow_request object_id st (Some ann_id) (Some bob_id)).2.
Proof.
  intros st.
  apply (follow_request_idempotent object_id st (Some ann_id) (Some bob_id));
    intros s [= <-]; by vm_compute.
Defined.






(** ** Likes on request strings: what holds for ids in stored form *)

Lemma like_request_post_at (cast : string → option string) (st : Store)
    (a b : option string) (pid : string) (post : Post) :
  stored_form cast b →
  posts st !! pid = Some post →
  posts (like_request cast st a b).2 !! pid = Some post
  ∨ ∃ u, posts (like_request cast st a b).2 !! pid = Some (toggle u post).
Proof.
  intros Hb Hpost. unfold like_request.
  destruct (truthy a) as [p|]; [|by destruct (truthy b); left].
  destruct (truthy b) as [u|] eqn:Hu; [|by left].
  pose proof (stored_form_truthy cast b u Hb Hu) as Hcu.
  destruct (cast p) as [pkey|]; [|by left].
  destruct (posts st !! pkey) as [post'|] eqn:Hpost'; [|by left].
  destruct (decide (pkey = pid)) as [->|Hne].
  - rewrite Hpost in Hpost'. injection Hpost' as <-.
    right. exists u. unfold toggle.
    destruct (existsb _ _); [|rewrite Hcu]; simpl;
      by rewrite lookup_insert_eq.
  - left. destruct (existsb _ _); [|rewrite Hcu]; simpl;
      by rewrite lookup_insert_ne.
Qed.

Lemma like_request_all_invariant (cast : string → option string)
    (P : Post → Prop) :
  (∀ u p, P p → P (toggle u p)) →
  ∀ (reqs : list LikeRequest) (st : Store) (pid : string) (post : Post),
    Forall (λ req, stored_form cast req.2) reqs →
    posts st !! pid = Some post → P post →
    ∃ post', posts (like_request_all cast st reqs) !! pid = Some post' ∧ P post'.
Proof.
  intros Hkeep reqs. induction reqs as [|req reqs IH];
    intros st pid post Hreqs Hpost HP.
  - exists post. done.
  - apply Forall_cons in Hreqs as [Hreq Hreqs].
    unfold like_request_all. simpl.
    destruct (like_request_post_at cast st req.1 req.2 pid post Hreq Hpost)
      as [H|[u H]].
    + by apply (IH _ pid post).
    + apply (IH _ pid (toggle u post)); [done|done|]. by apply Hkeep.
Qed.

(** X29. From a stored post whose counter is the cardinality of its
    [likedBy] set, every sequence of like requests whose user ids are in
    stored form, on whatever posts, leaves the post stored with its counter
    equal to the cardinality of its [likedBy] set. *)
Theorem like_request_all_consistent (cast : string → option string)
    (st : Store) (reqs : list LikeRequest) (pid : string) (post : Post) :
  Forall (λ req, stored_form cast req.2) reqs →
  posts st !! pid = Some post →
  like_consistent post →
  ∃ post', posts (like_request_all cast st reqs) !! pid = Some post'
           ∧ likes post' = liked_by_cardinal post'.
Proof.
  intros Hreqs Hpost Hc.
  apply (like_request_all_invariant cast like_consistent toggle_consistent
           reqs st pid post Hreqs Hpost Hc).
Qed.

Lemma like_request_all_consistent_witness :
  ∃ post', posts (like_request_all object_id hex_store
                    [(Some post1_id, Some ann_id); (Some post1_id, Some bob_id);
                     (Some post1_id, Some ann_id)]) !! post1_id = Some post'
           ∧ likes post' = liked_by_cardinal post'.
Proof.
  apply (like_request_all_consistent object_id hex_store _ post1_id
           (mkPost ann_id "one" "" "" 0 [] 0 [] 10)); [|by vm_compute|by vm_compute].
  repeat constructor; intros s [= <-]; by vm_compute.
Defined.

(** X30. From a stored post whose [likedBy] has no duplicate, every
    sequence of like requests whose user ids are in stored form leaves the
    post stored with a [likedBy] without duplicates. *)
Theorem like_request_all_duplicate_free (cast : string → option string)
    (st : Store) (reqs : list LikeRequest) (pid : string) (post : Post) :
  Forall (λ req, stored_form cast req.2) reqs →
  posts st !! pid = Some post →
  NoDup (likedBy post) →
  ∃ post', posts (like_request_all cast st reqs) !! pid = Some post'
           ∧ NoDup (likedBy post').
Proof.
  intros Hreqs Hpost Hnd.
  apply (like_request_all_invariant cast (λ p, NoDup (likedBy p)) toggle_NoDup
           reqs st pid post Hreqs Hpost Hnd).
Qed.

Lemma like_request_all_duplicate_free_witness :
  ∃ post', posts (like_request_all object_id hex_store
                    [(Some post1_id, Some ann_id); (Some post1_id, Some bob_id);
                     (Some post1_id, Some ann_id)]) !! post1_id = Some post'
           ∧ NoDup (likedBy post').
Proof.
  apply (like_request_all_duplicate_free object_id hex_store _ post1_id
           (mkPost ann_id "one" "" "" 0 [] 0 [] 10));
    [|by vm_compute|apply NoDup_nil_2].
  repeat constructor; intros s [= <-]; by vm_compute.
Defined.

(** X11. A like request with a user id in stored form, on a stored post,
    flips the membership of that user in [likedBy] and of nobody else. *)
Theorem like_request_flips_membership (cast : string → option string)
    (st : Store) (pid uid : string) (post : Post) :
  pid ≠ "" → uid ≠ "" → cast pid = Some pid → cast uid = Some uid →
  posts st !! pid = Some post →
  ∃ post', posts (like_request cast st (Some pid) (Some uid)).2 !! pid = Some post'
           ∧ (uid ∈ likedBy post' ↔ uid ∉ likedBy post)
           ∧ ∀ v, v ≠ uid → (v ∈ likedBy post' ↔ v ∈ likedBy post).
Proof.
  intros Hp Hu Hcp Hcu Hpost.
  rewrite (like_request_stored cast st pid uid post) by done.
  simpl. rewrite lookup_insert_eq. eexists. split; [done|]. split.
  - rewrite toggle_membership. naive_solver.
  - intros v Hv. rewrite toggle_membership. naive_solver.
Qed.

Lemma like_request_flips_membership_witness :
  let post := mkPost ann_id "hello" "" "" 2 [ann_id; bob_id] 0 [] 10 in
  let st := mkStore ∅ (<[post1_id := post]> ∅) in
  ∃ post', posts (like_request object_id st (Some post1_id) (Some ann_id)).2
             !! post1_id = Some post'
           ∧ (ann_id ∈ likedBy post' ↔ ann_id ∉ likedBy post)
           ∧ ∀ v, v ≠ ann_id → (v ∈ likedBy post' ↔ v ∈ likedBy post).
Proof.
  intros post st.
  apply (like_request_flips_membership object_id st post1_id ann_id post);
    by vm_compute.
Defined.

(** X12. On a stored post whose counter is the cardinality of its
    [likedBy] set, a like request with a user id in stored form answers
    with the counter moved by exactly one: one less when the user had liked
    the post (the clamp at 0 does not apply), one more otherwise. *)
Theorem like_request_counts_one (cast : string → option string)
    (st : Store) (pid uid : string) (post : Post) :
  pid ≠ "" → uid ≠ "" → cast pid = Some pid → cast uid = Some uid →
  posts st !! pid = Some post →
  like_consistent post →
  ∃ reply st',
    like_request cast st (Some pid) (Some uid) = (Success 200 reply, st')
    ∧ replyLikes reply
      = (if decide (uid ∈ likedBy post) then likes post - 1 else likes post + 1).
Proof.
  intros Hp Hu Hcp Hcu Hpost Hc.
  rewrite (like_request_stored cast st pid uid post) by done.
  eexists _, _. split; [reflexivity|]. simpl.
  case_decide as Hin.
  - rewrite toggle_liked by done. simpl.
    pose proof (liked_cardinal_positive _ _ Hin).
    unfold like_consistent, liked_by_cardinal in Hc. lia.
  - by rewrite toggle_not_liked.
Qed.

Lemma like_request_counts_one_witness :
  let post := mkPost ann_id "hello" "" "" 2 [ann_id; bob_id] 0 [] 10 in
  let st := mkStore ∅ (<[post1_id := post]> ∅) in
  ∃ reply st',
    like_request object_id st (Some post1_id) (Some ann_id)
    = (Success 200 reply, st')
    ∧ replyLikes reply
      = (if decide (ann_id ∈ likedBy post) then likes post - 1 else likes post + 1).
Proof.
  intros post st.
  apply (like_request_counts_one object_id st post1_id ann_id post);
    by vm_compute.
Defined.

(** ** Comments on request strings: sequences and views *)

(** X15. On a stored post, a sequence of comment requests with non-empty
    texts and author ids in stored form leaves the prior comments in
    place, followed by the new comments in the order of the requests, each
    with its author, its text and the time it was served at; nothing is
    merged or dropped. *)
Theorem comment_request_all_appends (cast : string → option string)
    (st : Store) (pid : string) (reqs : list (Z * string * string))
    (post : Post) :
  pid ≠ "" → cast pid = Some pid →
  Forall (λ req, req.1.2 ≠ "" ∧ req.2 ≠ "" ∧ cast req.1.2 = Some req.1.2) reqs →
  posts st !! pid = Some post →
  comments_of (comment_request_all cast st pid reqs) pid
  = comments post ++ ((λ req, mkComment req.1.2 req.2 req.1.1) <$> reqs).
Proof.
  intros Hp Hcp Hall. revert st post.
  induction Hall as [|[[now uid] txt] reqs (Hu & Ht & Hcu) Hall IH];
    intros st post Hpost.
  - simpl. unfold comments_of. by rewrite Hpost, app_nil_r.
  - unfold comment_request_all in *. simpl in *.
    rewrite (comment_request_cast cast st now pid pid uid uid txt post) by done.
    simpl.
    rewrite (IH _ (with_comments (comments post ++ [mkComment uid txt now]) post)).
    + simpl. by rewrite <- app_assoc.
    + simpl. by rewrite lookup_insert_eq.
Qed.

Lemma comment_request_all_appends_witness :
  let post := mkPost ann_id "hello" "" "" 0 [] 0 [mkComment ann_id "first" 11] 10 in
  let st := mkStore ∅ (<[post1_id := post]> ∅) in
  let reqs := [(12, bob_id, "second"); (13, bob_id, "second"); (14, ann_id, "third")] in
  comments_of (comment_request_all object_id st post1_id reqs) post1_id
  = comments post ++ ((λ req, mkComment req.1.2 req.2 req.1.1) <$> reqs).
Proof.
  intros post st reqs.
  apply (comment_request_all_appends object_id st post1_id reqs post);
    try (by vm_compute).
  repeat constructor; by vm_compute.
Defined.

(** X16. After a comment request that is answered with success, the detail
    view of the post shows exactly the comments the comment response
    listed, and the like state, the shares, the text and the author of the
    post as they were stored before. *)
Theorem comment_request_then_get_post (cast : string → option string)
    (st st' : Store) (now : Z) (pid uid txt : option string) (p pkey : string)
    (code : nat) (msg : string) (views : list CommentView) :
  comment_request cast st now pid uid txt = (Success code (msg, views), st') →
  pid = Some p → cast p = Some pkey →
  ∃ post pv,
    posts st !! pkey = Some post
    ∧ get_post st' pkey = Success 200 pv
    ∧ shownComments pv = views
    ∧ shownUserId pv = userId post ∧ shownText pv = text post
    ∧ shownLikes pv = likes post ∧ shownLikedBy pv = likedBy post
    ∧ shownShares pv = shares post ∧ shownCreatedAt pv = createdAt post.
Proof.
  intros Hreq -> Hcp. unfold comment_request in Hreq.
  destruct (truthy (Some p)) as [p'|] eqn:Hp;
    [|by destruct (truthy uid), (truthy txt)].
  apply truthy_inv in Hp as [[= <-] Hp].
  destruct (truthy uid) as [u|]; [|by destruct (truthy txt)].
  destruct (truthy txt) as [t|]; [|done].
  rewrite Hcp in Hreq.
  destruct (posts st !! pkey) as [post|] eqn:Hpost; [|done].
  destruct (cast u) as [ukey|]; [|done].
  injection Hreq as <- <- <- <-.
  exists post. eexists. split; [done|].
  unfold get_post. simpl. rewrite lookup_insert_eq. simpl.
  split; [reflexivity|]. simpl. done.
Qed.

Lemma comment_request_then_get_post_witness :
  let post := mkPost ann_id "hello" "" "" 0 [] 0 [mkComment ann_id "first" 11] 10 in
  let st := mkStore hex_users (<[post1_id := post]> ∅) in
  let r := comment_request object_id st 12 (Some post1_id) (Some bob_id)
             (Some "second") in
  ∃ post0 pv,
    posts st !! post1_id = Some post0
    ∧ get_post r.2 post1_id = Success 200 pv
    ∧ shownComments pv
      = [mkCommentView (Some (mkUserSummary ann_id "Ann" "Lee" "ann.png")) "first" 11;
         mkCommentView (Some (mkUserSummary bob_id "Bob" "Ray" "")) "second" 12]
    ∧ shownUserId pv = userId post0 ∧ shownText pv = text post0
    ∧ shownLikes pv = likes post0 ∧ shownLikedBy pv = likedBy post0
    ∧ shownShares pv = shares post0 ∧ shownCreatedAt pv = createdAt post0.
Proof.
  intros post st r.
  apply (comment_request_then_get_post object_id st r.2 12
           (Some post1_id) (Some bob_id) (Some "second") post1_id post1_id
           200 "Comment added."); by vm_compute.
Defined.

(** X17. The comment handler does not look the author up: a comment whose
    author id is cast to an [ObjectId] that is not the id of a stored user
    is stored all the same, and the response lists it last, without an
    author. *)
Theorem comment_request_unknown_author (cast : string → option string)
    (st : Store) (now : Z) (pid pkey uid ukey txt : string) (post : Post) :
  pid ≠ "" → uid ≠ "" → txt ≠ "" →
  cast pid = Some pkey → cast uid = Some ukey →
  posts st !! pkey = Some post →
  users st !! ukey = None →
  ∃ views st',
    comment_request cast st now (Some pid) (Some uid) (Some txt)
    = (Success 200 ("Comment added.", views), st')
    ∧ last (comments_of st' pkey) = Some (mkComment ukey txt now)
    ∧ last views = Some (mkCommentView None txt now).
Proof.
  intros Hp Hu Ht Hcp Hcu Hpost Hnone.
  rewrite (comment_request_cast cast st now pid pkey uid ukey txt post) by done.
  simpl. eexists _, _. split; [reflexivity|].
  unfold comments_of. simpl. rewrite lookup_insert_eq. simpl.
  rewrite fmap_app. cbn [fmap list_fmap]. rewrite !last_snoc. split; [done|].
  unfold comment_view, summary. simpl. by rewrite Hnone.
Qed.

Lemma comment_request_unknown_author_witness :
  ∃ views st',
    comment_request object_id hex_store 12 (Some post1_id) (Some cyd_id) (Some "boo")
    = (Success 200 ("Comment added.", views), st')
    ∧ last (comments_of st' post1_id) = Some (mkComment cyd_id "boo" 12)
    ∧ last views = Some (mkCommentView None "boo" 12).
Proof.
  apply (comment_request_unknown_author object_id hex_store 12
           post1_id post1_id cyd_id cyd_id "boo"
           (mkPost ann_id "one" "" "" 0 [] 0 [] 10)); by vm_compute.
Defined.

(** ** Failures and the store *)


(** X21. For an author id that is cast to an [ObjectId] no stored post
    has, the listing is answered with success and an empty array, whether
    or not the author is a stored user. *)
Theorem posts_request_no_match (cast : string → option string) (st : Store)
    (X key : string) (r : response (list FeedEntry)) :
  X ≠ "" → cast X = Some key →
  (∀ pid post, posts st !! pid = Some post → userId post ≠ key) →
  posts_request cast st (Some X) r →
  r = Success 200 [].
Proof.
  intros HX Hcast Hnone. unfold posts_request.
  rewrite truthy_Some by done. rewrite Hcast.
  intros (docs & [Hperm Hsorted] & ->).
  assert (posts_of st key = []) as Hempty.
  { apply elem_of_nil_inv. intros [pid post] Hin.
    apply posts_of_elem in Hin as [Hpost Hx].
    by apply (Hnone pid post). }
  rewrite Hempty in Hperm. apply Permutation_nil_r in Hperm. by subst docs.
Qed.

Lemma posts_request_no_match_witness :
  posts_request_run object_id hex_store (Some cyd_id) = Success 200 [].
Proof.
  apply (posts_request_no_match object_id hex_store cyd_id cyd_id);
    [done|by vm_compute| |apply posts_request_total].
  intros pid post Hpost.
  assert ((pid, post) ∈ map_to_list (posts hex_store)) as Hin
    by (by apply elem_of_map_to_list).
  vm_compute in Hin. clear Hpost.
  repeat (apply elem_of_cons in Hin as [[= -> ->]|Hin]; [done|]).
  by apply elem_of_nil in Hin.
Defined.

(** A listing for an author id that cannot be cast is answered 500. *)
Lemma posts_request_bad_author (cast : string → option string) (st : Store)
    (X : string) (r : response (list FeedEntry)) :
  X ≠ "" → cast X = None →
  posts_request cast st (Some X) r ↔ r = Failure 500 "Server error.".
Proof.
  intros HX Hcast. unfold posts_request. rewrite truthy_Some by done.
  by rewrite Hcast.
Qed.
